(** * Automated File Organizer: a shallow embedding of [organizer.py]

    The development follows [src/Automated_File_Organizer/organizer.py]:

    - [Str] and [PurePath] model the pieces of [str] and [pathlib.PurePath]
      the program uses ([lower], [startswith], [name], [parent], [stem],
      [suffix], the [/] operator);
    - [CATEGORIES] is the extension table of lines 21-48;
    - [FS] models the file system the program runs against (a finite tree of
      regular files, directories and leaf symbolic links) together with the
      [pathlib.Path] / [shutil] calls the program makes, each of which the
      environment can make fail, as it can the traversal;
    - [resolve_conflict], [is_same_file] and [organize_directory] are
      translated line by line, in a small state-and-exception monad.

    The calls to [logging] have no part in what the functions compute and
    are left out, as are [configure_logging], [parse_args] and [main]. *)

From Stdlib Require Import Ascii String ZArith Lia.
From stdpp Require Import gmap strings list pretty.

Local Open Scope string_scope.
Local Open Scope Z_scope.
Local Open Scope list_scope.

(** ** Strings: the [str] methods used by the program *)

Module Str.

(** [s[n:]] *)
Fixpoint drop (n : nat) (s : string) : string :=
  match n, s with
  | O, _ => s
  | S _, EmptyString => EmptyString
  | S n', String _ s' => drop n' s'
  end.

(** [s[:n]] *)
Fixpoint take (n : nat) (s : string) : string :=
  match n, s with
  | O, _ => EmptyString
  | S _, EmptyString => EmptyString
  | S n', String a s' => String a (take n' s')
  end.

(** [s.rfind(c)]: index of the last occurrence of [c], or [-1]. *)
Fixpoint rfind (c : ascii) (s : string) : Z :=
  match s with
  | EmptyString => -1
  | String a s' =>
      let i := rfind c s' in
      if 0 <=? i then i + 1
      else if Ascii.eqb a c then 0 else -1
  end.

(** [len(s)] *)
Definition len (s : string) : Z := Z.of_nat (String.length s).

(** One character of [str.lower()]: the letters [A]-[Z] are shifted to
    [a]-[z]; every other character is kept.  Names are modelled as
    sequences of 8-bit characters, so the lower-casing of characters
    outside ASCII is not part of the model. *)
Definition lower_char (a : ascii) : ascii :=
  let n := N_of_ascii a in
  if ((65 <=? n) && (n <=? 90))%N then ascii_of_N (n + 32) else a.

(** [s.lower()] *)
Fixpoint lower (s : string) : string :=
  match s with
  | EmptyString => EmptyString
  | String a s' => String (lower_char a) (lower s')
  end.

(** [s.startswith(c)] for a one-character prefix [c]. *)
Definition startswith (c : ascii) (s : string) : bool :=
  match s with
  | String a _ => Ascii.eqb a c
  | EmptyString => false
  end.

End Str.

(** ** Pure paths

    A path is the list of its components below the file-system root; the
    program only builds paths with [/] from [source] and from the entries
    [rglob] yields, so components are non-empty names without separator. *)

Definition path := list string.

Module PurePath.

(** [p.name]: the final component ([''] for the root). *)
Definition name (p : path) : string := default "" (last p).

(** [p.parent] *)
Definition parent (p : path) : path := removelast p.

(** [p / s] *)
Definition joinpath (p : path) (s : string) : path := (p ++ [s])%list.

(** The test [0 < i < len(name) - 1] shared by [suffix] and [stem], with
    [i = name.rfind('.')]. *)
Definition has_suffix (nm : string) : bool :=
  let i := Str.rfind "." nm in
  (0 <? i) && (i <? Str.len nm - 1).

Definition suffix_of_name (nm : string) : string :=
  if has_suffix nm then Str.drop (Z.to_nat (Str.rfind "." nm)) nm else "".

Definition stem_of_name (nm : string) : string :=
  if has_suffix nm then Str.take (Z.to_nat (Str.rfind "." nm)) nm else nm.

(** [p.suffix]: the final component's last dot-suffix, when the last dot
    is neither the first nor the last character of the name
    ([pathlib] up to Python 3.13). *)
Definition suffix (p : path) : string := suffix_of_name (name p).

(** [p.stem]: the final component without its suffix. *)
Definition stem (p : path) : string := stem_of_name (name p).

End PurePath.

Notation "p // s" := (PurePath.joinpath p s) (at level 40, left associativity).

(** ** The category table (lines 21-48) *)

Definition CATEGORIES : gmap string string :=
  list_to_map
    [ (".py", "Python_Code"); (".ipynb", "Notebooks"); (".txt", "Documents");
      (".md", "Documents"); (".pdf", "Documents"); (".docx", "Documents");
      (".xlsx", "Spreadsheets"); (".csv", "Spreadsheets"); (".png", "Images");
      (".jpg", "Images"); (".jpeg", "Images"); (".gif", "Images");
      (".bmp", "Images"); (".mp3", "Audio"); (".wav", "Audio");
      (".mp4", "Video"); (".mov", "Video"); (".zip", "Archives");
      (".tar", "Archives"); (".gz", "Archives"); (".json", "Data");
      (".xml", "Data"); (".html", "Web"); (".css", "Web"); (".js", "Web") ].

(** Lines 101-102: [ext = item.suffix.lower()] and
    [category = CATEGORIES.get(ext, 'Other')]. *)
Definition category_of_ext (ext : string) : string :=
  default "Other" (CATEGORIES !! ext).

Definition category_of (item : path) : string :=
  category_of_ext (Str.lower (PurePath.suffix item)).

(** "Regardless of letter case", said without [Str.lower]: [a] is the
    upper-case form of [b] when [a] is one of the letters [A]-[Z] and [b] is
    the letter 32 places further on; two characters are the same up to case
    when they are equal or one is the upper-case form of the other; two
    strings, when they are so character by character. *)
Definition upper_case_of (a b : ascii) : bool :=
  let n := N_of_ascii a in
  ((65 <=? n) && (n <=? 90) && (N_of_ascii b =? n + 32))%N.

Definition same_char_up_to_case (a b : ascii) : bool :=
  Ascii.eqb a b || upper_case_of a b || upper_case_of b a.

Fixpoint same_up_to_case (s1 s2 : string) : bool :=
  match s1, s2 with
  | EmptyString, EmptyString => true
  | String a s1', String b s2' => same_char_up_to_case a b && same_up_to_case s1' s2'
  | _, _ => false
  end.

(** ** Exceptions and results

    The [except] clauses of [organize_directory] distinguish
    [PermissionError], [FileNotFoundError] / [OSError] and any other
    [Exception]; [exn_str] is [str(e)]. *)

Inductive exn_class := PermissionError | FileNotFoundError | OSError | OtherException.

Record exn := Exn { exn_class_of : exn_class; exn_str : string }.

Inductive result (A : Type) : Type :=
| Ok (a : A)
| Raise (e : exn).
Arguments Ok {A} a.
Arguments Raise {A} e.

#[global] Instance exn_class_eq_dec : EqDecision exn_class.
Proof. solve_decision. Defined.
#[global] Instance exn_eq_dec : EqDecision exn.
Proof. solve_decision. Defined.
#[global] Instance result_eq_dec {A} `{EqDecision A} : EqDecision (result A).
Proof. solve_decision. Defined.

(** ** The file system

    The environment of the program: a finite tree whose entries are regular
    files, directories and symbolic links.  Symbolic links are leaves (they
    do not stand for directories) and point outside the tree being
    organised, so that [Path.resolve()] leaves the absolute, normalised paths
    the program handles unchanged; a link is [dangling] when its target is
    missing.  The root (the empty path) is always a directory.

    Every call may moreover fail for reasons the tree does not show
    (permissions, devices, races): [faults] names the exception, if any, the
    environment raises for a call. *)

Module FS.

Inductive node := File | Dir | Symlink (dangling : bool).

#[global] Instance node_eq_dec : EqDecision node.
Proof. solve_decision. Defined.

Abbreviation tree := (gmap path node).

(** What the environment can make fail: the calls of [pathlib.Path] and
    [shutil] the program makes; the removal of the source that ends the copy
    fallback of [shutil.move] ([Unlink]); and the advance of the generator
    [source.rglob('*')] that has yielded [k] entries ([Next k]). *)
Inductive call :=
| Exists (p : path)
| IsDir (p : path)
| IsSymlink (p : path)
| Resolve (p : path)
| Mkdir (p : path)
| Move (src dst : path)
| Unlink (src : path)
| Next (k : nat).

Definition node_at (t : tree) (p : path) : option node :=
  match p with
  | [] => Some Dir
  | _ => t !! p
  end.

(** What [stat] (following links) answers. *)
Definition exists_in (t : tree) (p : path) : bool :=
  match node_at t p with
  | Some File | Some Dir => true
  | Some (Symlink dangling) => negb dangling
  | None => false
  end.

Definition is_dir_in (t : tree) (p : path) : bool :=
  match node_at t p with
  | Some Dir => true
  | _ => false
  end.

Definition is_symlink_in (t : tree) (p : path) : bool :=
  match node_at t p with
  | Some (Symlink _) => true
  | _ => false
  end.

(** [os.makedirs]-like creation of [done ++ todo], one component at a
    time: existing directories are kept, missing ones are created, and
    anything else on the way is an error. *)
Fixpoint mkdir_go (t : tree) (done : path) (todo : list string) : result tree :=
  match todo with
  | [] => Ok t
  | c :: todo' =>
      let q := done // c in
      match node_at t q with
      | Some Dir => mkdir_go t q todo'
      | Some _ => Raise (Exn OSError "File exists or not a directory")
      | None => mkdir_go (<[q := Dir]> t) q todo'
      end
  end.

(** The tree after [os.rename(src, dst)] of a whole subtree. *)
Definition rekey (src dst : path) (t : tree) : tree :=
  list_to_map
    ((λ kn : path * node,
        (if bool_decide (src `prefix_of` kn.1)
         then (dst ++ list.drop (length src) kn.1)%list else kn.1, kn.2))
       <$> map_to_list t).

(** [shutil.move(src, dst)] on the tree.  When [dst] is a directory the
    entry is moved into it under its own name, which must be free there
    (moving a directory onto itself does nothing).  A file or a link is
    renamed, replacing whatever non-directory is at the destination; the
    destination's parent must be a directory.  A directory cannot be moved
    into itself nor onto an existing entry; the missing directories above its
    destination are created. *)
Definition move_in (t : tree) (src dst : path) : result tree :=
  let real_dst := if is_dir_in t dst then dst // PurePath.name src else dst in
  if is_dir_in t dst && bool_decide (src = dst) then Ok t
  else if is_dir_in t dst && exists_in t real_dst then
    Raise (Exn OSError "Destination path already exists")
  else
    match node_at t src with
    | None => Raise (Exn FileNotFoundError "No such file or directory")
    | Some Dir =>
        if bool_decide (src `prefix_of` real_dst) then
          Raise (Exn OSError "Cannot move a directory into itself")
        else if bool_decide (is_Some (node_at t real_dst)) then
          Raise (Exn OSError "File exists")
        else
          match mkdir_go t [] (PurePath.parent real_dst) with
          | Ok t' => Ok (rekey src real_dst t')
          | Raise e => Raise e
          end
    | Some n =>
        if negb (is_dir_in t (PurePath.parent real_dst)) then
          Raise (Exn OSError "No such file or directory, or not a directory")
        else Ok (<[real_dst := n]> (delete src t))
    end.

Section Calls.
Variable faults : call → option exn.

Definition guarded {A} (c : call) (r : result A) : result A :=
  match faults c with
  | Some e => Raise e
  | None => r
  end.

(** [p.exists()] *)
Definition path_exists (t : tree) (p : path) : result bool :=
  guarded (Exists p) (Ok (exists_in t p)).

(** [p.is_dir()] *)
Definition is_dir (t : tree) (p : path) : result bool :=
  guarded (IsDir p) (Ok (is_dir_in t p)).

(** [p.is_symlink()] *)
Definition is_symlink (t : tree) (p : path) : result bool :=
  guarded (IsSymlink p) (Ok (is_symlink_in t p)).

(** [p.resolve()] *)
Definition resolve (t : tree) (p : path) : result path :=
  guarded (Resolve p) (Ok p).

(** [p.mkdir(parents=True, exist_ok=True)].  The program calls it on a
    path directly below [source]; where the directories above exist, a
    failing call has created nothing. *)
Definition mkdir (t : tree) (p : path) : result tree :=
  guarded (Mkdir p) (mkdir_go t [] p).

(** [shutil.move(str(src), str(dst))]: the tree the call leaves and how it
    ends.  The call can fail before it has written anything ([Move]).  It
    can also fail late ([Unlink]): when [os.rename] is refused, [shutil.move]
    copies the entry to the destination and then removes the source, and a
    failure of that last step is raised with the copy written and the source
    still there. *)
Definition move (t : tree) (src dst : path) : tree * result unit :=
  match faults (Move src dst) with
  | Some e => (t, Raise e)
  | None =>
      match move_in t src dst with
      | Raise e => (t, Raise e)
      | Ok t' =>
          match faults (Unlink src) with
          | Some e => (t' ∪ t, Raise e)
          | None => (t', Ok tt)
          end
      end
  end.
End Calls.

(** Trees in which every entry sits in a directory. *)
Definition well_formed (t : tree) : bool :=
  bool_decide (map_Forall (λ p _, is_dir_in t (PurePath.parent p) = true) t).

Definition no_faults : call → option exn := λ _, None.

End FS.

(** ** The program *)

(** The mutable variables of one run of [organize_directory] (lines 86-89)
    and the file system it acts on. *)
Record state := State {
  fs : FS.tree;
  moved : list (path * path);
  errors : list (path * string);
  skipped : list path;
  total_files : nat
}.

Definition set_fs (t : FS.tree) (st : state) : state :=
  State t (moved st) (errors st) (skipped st) (total_files st).
Definition append_moved (m : path * path) (st : state) : state :=
  State (fs st) (moved st ++ [m]) (errors st) (skipped st) (total_files st).
Definition append_errors (e : path * string) (st : state) : state :=
  State (fs st) (moved st) (errors st ++ [e]) (skipped st) (total_files st).
Definition append_skipped (p : path) (st : state) : state :=
  State (fs st) (moved st) (errors st) (skipped st ++ [p]) (total_files st).
Definition incr_total_files (st : state) : state :=
  State (fs st) (moved st) (errors st) (skipped st) (S (total_files st)).

(** Statements that read and update the state and may raise. *)
Definition M (A : Type) : Type := state → state * result A.

Definition ret {A} (a : A) : M A := λ st, (st, Ok a).

Definition bind {A B} (m : M A) (k : A → M B) : M B :=
  λ st, match m st with
        | (st', Ok a) => k a st'
        | (st', Raise e) => (st', Raise e)
        end.

Notation "'let*' x ':=' m 'in' k" := (bind m (λ x, k))
  (at level 10, x name, m at level 100, k at level 200).

(** A call that only inspects the file system. *)
Definition inspect {A} (f : FS.tree → result A) : M A :=
  λ st, (st, f (fs st)).

(** A call that changes the file system; a failed call leaves it as it was. *)
Definition mutate (f : FS.tree → result FS.tree) : M unit :=
  λ st, match f (fs st) with
        | Ok t' => (set_fs t' st, Ok tt)
        | Raise e => (st, Raise e)
        end.

(** A call that may have changed the file system when it fails. *)
Definition act (f : FS.tree → FS.tree * result unit) : M unit :=
  λ st, (set_fs (f (fs st)).1 st, (f (fs st)).2).

Definition modify (f : state → state) : M unit := λ st, (f st, Ok tt).

(** [when b m]: a one-armed [if]. *)
Definition when (b : bool) (m : M unit) : M unit := if b then m else ret tt.

(** Lines 69 and 72: [parent / f"{stem} ({counter}){suffix}"]. *)
Definition numbered (target : path) (counter : nat) : path :=
  PurePath.parent target //
    (PurePath.stem target +:+ " (" +:+ pretty counter +:+ ")" +:+ PurePath.suffix target).

Record summary := Summary {
  total_files_seen : nat;
  moved_count : nat;
  errors_count : nat;
  skipped_count : nat
}.

(** The dictionary returned at lines 149-154. *)
Record run_result := RunResult {
  r_moved : list (path * path);
  r_errors : list (path * string);
  r_skipped : list path;
  r_summary : summary
}.

#[global] Instance summary_eq_dec : EqDecision summary.
Proof. solve_decision. Defined.
#[global] Instance run_result_eq_dec : EqDecision run_result.
Proof. solve_decision. Defined.

Section Organizer.
Variable faults : FS.call → option exn.

(** The [while] loop of lines 70-72, started with [counter] and
    [new_target = numbered target counter]; [fuel] bounds the number of
    tests of the loop condition, and [None] means the bound was reached. *)
Fixpoint resolve_conflict_loop (fuel : nat) (t : FS.tree) (target : path)
    (counter : nat) : option (result path) :=
  match fuel with
  | O => None
  | S fuel' =>
      let new_target := numbered target counter in
      match FS.path_exists faults t new_target with
      | Raise e => Some (Raise e)
      | Ok true => resolve_conflict_loop fuel' t target (counter + 1)
      | Ok false => Some (Ok new_target)
      end
  end.

(** Lines 63-73.  The loop is run with one more test than the tree has
    entries, which always suffices ([resolve_conflict_fuel] below), so the
    last branch is never taken. *)
Definition resolve_conflict (target : path) : M path :=
  inspect (λ t,
    match resolve_conflict_loop (S (size t)) t target 1 with
    | Some r => r
    | None => Ok (numbered target (S (size t)))
    end).

(** Lines 75-79. *)
Definition is_same_file (a b : path) : M bool :=
  inspect (λ t,
    match FS.resolve faults t a with
    | Raise _ => Ok false
    | Ok ra =>
        match FS.resolve faults t b with
        | Raise _ => Ok false
        | Ok rb => Ok (bool_decide (ra = rb))
        end
    end).

(** Lines 116-119: the destination of the move, once it is known that
    the file is not in place. *)
Definition conflict_free (target_path : path) : M path :=
  let* taken := inspect (λ t, FS.path_exists faults t target_path) in
  if taken then resolve_conflict target_path else ret target_path.

(** The body of the [try] block, lines 93-125; [continue] is [ret tt]. *)
Definition loop_body (source : path) (dry_run include_hidden : bool)
    (item : path) : M unit :=
  let* d := inspect (λ t, FS.is_dir faults t item) in
  if d then ret tt else
  let* l := inspect (λ t, FS.is_symlink faults t item) in
  if l then ret tt else
  if negb include_hidden && Str.startswith "." (PurePath.name item) then
    modify (append_skipped item)
  else
    let* _ := modify incr_total_files in
    let category := category_of item in
    let target_dir := source // category in
    let* present := inspect (λ t, FS.path_exists faults t target_dir) in
    let* _ :=
      when (negb present)
        (when (negb dry_run) (mutate (λ t, FS.mkdir faults t target_dir))) in
    let target_path := target_dir // PurePath.name item in
    let* same := is_same_file item target_path in
    if same then ret tt else
    let* target_path := conflict_free target_path in
    let* _ := when (negb dry_run) (act (λ t, FS.move faults t item target_path)) in
    modify (append_moved (item, target_path)).

(** The [except] clauses, lines 126-134. *)
Definition except_clauses (item : path) (e : exn) (st : state) : state :=
  match exn_class_of e with
  | PermissionError => append_errors (item, exn_str e) st
  | FileNotFoundError | OSError => append_errors (item, exn_str e) st
  | OtherException => append_errors (item, exn_str e) st
  end.

(** One iteration of the [for] loop, lines 91-134. *)
Definition process_item (source : path) (dry_run include_hidden : bool)
    (st : state) (item : path) : state :=
  match loop_body source dry_run include_hidden item st with
  | (st', Ok _) => st'
  | (st', Raise e) => except_clauses item e st'
  end.

Definition initial (t : FS.tree) : state := State t [] [] [] 0.

(** Lines 136-154. *)
Definition report (st : state) : run_result :=
  RunResult (moved st) (errors st) (skipped st)
    (Summary (total_files st) (length (moved st)) (length (errors st))
       (length (skipped st))).

(** The [for] statement of lines 91-134.  [items] are the entries the
    generator [source.rglob('*')] has still to yield and [k] is the number of
    times it has been advanced.  The generator is advanced at line 91,
    outside the [try] block: when the environment makes that fail
    ([FS.Next k]) the exception ends the loop and is not handled.  The
    advance after the last entry can fail in the same way. *)
Fixpoint for_loop (source : path) (dry_run include_hidden : bool)
    (k : nat) (items : list path) (st : state) : state * result unit :=
  match faults (FS.Next k) with
  | Some e => (st, Raise e)
  | None =>
      match items with
      | [] => (st, Ok tt)
      | item :: items' =>
          for_loop source dry_run include_hidden (S k) items'
            (process_item source dry_run include_hidden st item)
      end
  end.

(** Lines 81-154.  [items] is the sequence of entries [source.rglob('*')]
    yields during the run, whatever the run makes it yield: the generator
    is lazy, and in a live run it can come upon files the run has moved.
    The function returns the file system the run leaves behind and what the
    call returns: [None], the result dictionary, or the exception of the
    precondition check or of the traversal. *)
Definition organize_directory (source : path) (dry_run include_hidden : bool)
    (items : list path) (t : FS.tree) : FS.tree * result (option run_result) :=
  match FS.path_exists faults t source with
  | Raise e => (t, Raise e)
  | Ok false => (t, Ok None)
  | Ok true =>
      match for_loop source dry_run include_hidden 0 items (initial t) with
      | (st, Ok _) => (fs st, Ok (Some (report st)))
      | (st, Raise e) => (fs st, Raise e)
      end
  end.

End Organizer.

(** ** Auxiliary definitions *)

(** The text [" (k)"] inserted by [resolve_conflict]. *)
Definition tag (k : nat) : string := " (" +:+ pretty k +:+ ")".

(** What the loop of [resolve_conflict] returns when its test first fails,
    or raises, at [numbered target k]. *)
Definition loop_outcome (faults : FS.call → option exn) (t : FS.tree)
    (target : path) (k : nat) : result path :=
  match FS.path_exists faults t (numbered target k) with
  | Ok _ => Ok (numbered target k)
  | Raise e => Raise e
  end.

(** Lines 112-125, the part of the loop body after the target directory
    has been dealt with. *)
Definition finish (faults : FS.call → option exn) (dry_run : bool)
    (item target_path : path) : M unit :=
  let* same := is_same_file faults item target_path in
  if same then ret tt else
  let* target_path := conflict_free faults target_path in
  let* _ := when (negb dry_run) (act (λ t, FS.move faults t item target_path)) in
  modify (append_moved (item, target_path)).

(** What [is_same_file] answers: it does not depend on the tree. *)
Definition same_resolved (faults : FS.call → option exn) (a b : path) : bool :=
  match faults (FS.Resolve a), faults (FS.Resolve b) with
  | None, None => bool_decide (a = b)
  | _, _ => false
  end.

(** How an iteration ends: the [except] clauses apply to a raised
    exception. *)
Definition settle (item : path) (out : state * result unit) : state :=
  match out.2 with
  | Ok _ => out.1
  | Raise e => except_clauses item e out.1
  end.

(** A file is in place when it sits in the directory of its category. *)
Definition in_place (source d : path) : Prop :=
  d = source // category_of d // PurePath.name d.

(** The invariant of a live run: the destinations recorded so far are
    pairwise distinct, exist, and are in place. *)
Definition dests_ok (source : path) (t : FS.tree) (mv : list (path * path)) : Prop :=
  NoDup mv.*2 ∧ ∀ d, d ∈ mv.*2 → FS.exists_in t d = true ∧ in_place source d.

(** The tree an iteration works on once lines 104-107 have dealt with the
    target directory: the tree it found, or, in a live run, that tree with
    the target directory created. *)
Definition prepared (faults : FS.call → option exn) (source : path) (dry_run : bool)
    (st : state) (item : path) (t1 : FS.tree) : Prop :=
  t1 = fs st ∨
  (dry_run = false ∧ FS.mkdir faults (fs st) (source // category_of item) = Ok t1).

(** [dest] is the candidate path or one of its numbered variants. *)
Definition variant_of (target_path dest : path) : Prop :=
  dest = target_path ∨ ∃ k, (1 ≤ k)%nat ∧ dest = numbered target_path k.

(** What one iteration of the loop does to the tree and to [moved]: no move
    is recorded and the tree is the prepared one; or one move is recorded,
    to a free variant of the candidate path, and in a live run a regular
    file has gone from [item] to that destination; or, in a live run, the
    move has failed late, an error is recorded, and a copy of the regular
    file [item] is left at the free variant the move was aimed at. *)
Inductive step_effect (faults : FS.call → option exn) (source : path) (dry_run : bool)
    (st : state) (item : path) (st' : state) : Prop :=
| effect_no_move (t1 : FS.tree) :
    prepared faults source dry_run st item t1 →
    fs st' = t1 →
    moved st' = moved st →
    step_effect faults source dry_run st item st'
| effect_move (t1 : FS.tree) (dest : path) :
    prepared faults source dry_run st item t1 →
    moved st' = moved st ++ [(item, dest)] →
    errors st' = errors st →
    variant_of (source // category_of item // PurePath.name item) dest →
    same_resolved faults item (source // category_of item // PurePath.name item) = false →
    FS.is_dir_in (fs st) item = false →
    FS.exists_in t1 dest = false →
    (if dry_run then fs st' = t1
     else FS.node_at t1 item = Some FS.File ∧
          FS.is_dir_in t1 (PurePath.parent dest) = true ∧
          fs st' = <[dest := FS.File]> (delete item t1)) →
    step_effect faults source dry_run st item st'
| effect_copy_left (t1 : FS.tree) (dest : path) (e : exn) :
    dry_run = false →
    prepared faults source dry_run st item t1 →
    moved st' = moved st →
    errors st' = errors st ++ [(item, exn_str e)] →
    variant_of (source // category_of item // PurePath.name item) dest →
    FS.exists_in t1 dest = false →
    FS.node_at t1 item = Some FS.File →
    faults (FS.Unlink item) = Some e →
    fs st' = <[dest := FS.File]> t1 →
    step_effect faults source dry_run st item st'.

(** [extend st d]: the records and the count of [st] followed by those of
    [d], on the tree of [d]. *)
Definition extend (st d : state) : state :=
  State (fs d) (moved st ++ moved d) (errors st ++ errors d)
    (skipped st ++ skipped d) (total_files st + total_files d).

(** A statement that reads nothing of the records: started with more
    records, it does the same and leaves them in front of its own. *)
Definition framed {A} (m : M A) : Prop :=
  ∀ st0 st, m (extend st0 st) = (extend st0 (m st).1, (m st).2).

(** A destination that holds a regular file, in an existing directory, at
    the very place the program would put that file. *)
Definition settled (source : path) (t : FS.tree) (d : path) : Prop :=
  FS.node_at t d = Some FS.File ∧
  FS.is_dir_in t (PurePath.parent d) = true ∧
  in_place source d.

(** The filters of lines 94-99 as tests on a tree: an entry gets past the
    type tests when it is neither a directory nor a link, and is then
    skipped or counted according to its name. *)
Definition passes_type_tests (t : FS.tree) (item : path) : bool :=
  negb (FS.is_dir_in t item) && negb (FS.is_symlink_in t item).

Definition hidden_skip (include_hidden : bool) (item : path) : bool :=
  negb include_hidden && Str.startswith "." (PurePath.name item).

Definition is_skipped (include_hidden : bool) (t : FS.tree) (item : path) : bool :=
  passes_type_tests t item && hidden_skip include_hidden item.

Definition is_counted (include_hidden : bool) (t : FS.tree) (item : path) : bool :=
  passes_type_tests t item && negb (hidden_skip include_hidden item).

(** An entry a run has nothing to do with: a directory, a link, a name
    the hidden-file filter skips, or a settled file. *)
Definition at_rest (source : path) (include_hidden : bool) (t : FS.tree)
    (d : path) : Prop :=
  FS.is_dir_in t d = true ∨ FS.is_symlink_in t d = true ∨
  hidden_skip include_hidden d = true ∨ settled source t d.

(** The names of the category table, with the default. *)
Definition category_names : list string :=
  [ "Python_Code"; "Notebooks"; "Documents"; "Spreadsheets"; "Images"; "Audio";
    "Video"; "Archives"; "Data"; "Web"; "Other" ].

(** The paths at which a tree holds a regular file. *)
Definition regular_files (t : FS.tree) : gset path :=
  dom (filter (λ kn : path * FS.node, kn.2 = FS.File) t).

(** ** Scenarios *)

(** A directory holding [report.txt] and its first two numbered variants. *)
Definition taken_tree : FS.tree :=
  list_to_map
    [ (["docs"], FS.Dir);
      (["docs"; "report.txt"], FS.File);
      (["docs"; "report (1).txt"], FS.File);
      (["docs"; "report (2).txt"], FS.File) ].

Definition taken_state : state := initial taken_tree.

(** A source directory whose only entry is the hidden directory [.git]. *)
Definition git_tree : FS.tree :=
  list_to_map [ (["src"], FS.Dir); (["src"; ".git"], FS.Dir) ].

(** A source directory holding one regular file named [Other]. *)
Definition other_tree : FS.tree :=
  list_to_map [ (["src"], FS.Dir); (["src"; "Other"], FS.File) ].

(** Two files of the same name in two sub-directories. *)
Definition twins_tree : FS.tree :=
  list_to_map
    [ (["src"], FS.Dir); (["src"; "a"], FS.Dir); (["src"; "b"], FS.Dir);
      (["src"; "a"; "x.txt"], FS.File); (["src"; "b"; "x.txt"], FS.File) ].

Definition twins_items : list path :=
  [ ["src"; "a"]; ["src"; "a"; "x.txt"]; ["src"; "b"]; ["src"; "b"; "x.txt"] ].

(** An environment in which moving [p] is refused. *)
Definition deny_move (p : path) : FS.call → option exn :=
  λ c, match c with
       | FS.Move src _ =>
           if bool_decide (src = p) then Some (Exn PermissionError "Permission denied")
           else None
       | _ => None
       end.

(** An environment in which advancing the traversal fails once [k] entries
    have been yielded. *)
Definition deny_next (k : nat) : FS.call → option exn :=
  λ c, match c with
       | FS.Next j =>
           if bool_decide (j = k)
           then Some (Exn OtherException "maximum recursion depth exceeded")
           else None
       | _ => None
       end.

(** An environment in which [shutil.move] fails late for [p]: the copy is
    written and removing [p] is refused. *)
Definition deny_unlink (p : path) : FS.call → option exn :=
  λ c, match c with
       | FS.Unlink src =>
           if bool_decide (src = p) then Some (Exn PermissionError "Permission denied")
           else None
       | _ => None
       end.

(** What the live run over the twins returns and leaves in that
    environment: the first file is copied and stays, the second is moved
    beside the copy. *)
Definition copy_left_result : run_result :=
  RunResult [ (["src"; "b"; "x.txt"], ["src"; "Documents"; "x (1).txt"]) ]
    [ (["src"; "a"; "x.txt"], "Permission denied") ] [] (Summary 2 1 1 0).

Definition copy_left_tree : FS.tree :=
  list_to_map
    [ (["src"], FS.Dir); (["src"; "a"], FS.Dir); (["src"; "b"], FS.Dir);
      (["src"; "Documents"], FS.Dir);
      (["src"; "a"; "x.txt"], FS.File);
      (["src"; "Documents"; "x.txt"], FS.File);
      (["src"; "Documents"; "x (1).txt"], FS.File) ].

(** What the live run over the twins records, and what it leaves. *)
Definition twins_moved : list (path * path) :=
  [ (["src"; "a"; "x.txt"], ["src"; "Documents"; "x.txt"]);
    (["src"; "b"; "x.txt"], ["src"; "Documents"; "x (1).txt"]) ].

Definition twins_live : FS.tree * result (option run_result) :=
  organize_directory FS.no_faults ["src"] false false twins_items twins_tree.

(** What a second traversal yields once the live run over the twins is
    over: the directories below [src], then what [Documents] holds. *)
Definition twins_rerun_items : list path :=
  [ ["src"; "a"]; ["src"; "b"]; ["src"; "Documents"];
    ["src"; "Documents"; "x.txt"]; ["src"; "Documents"; "x (1).txt"] ].

(** A tidy directory: the only file already sits in the directory of its
    category. *)
Definition tidy_tree : FS.tree :=
  list_to_map
    [ (["src"], FS.Dir); (["src"; "Documents"], FS.Dir);
      (["src"; "Documents"; "a.txt"], FS.File) ].

Definition tidy_items : list path :=
  [ ["src"; "Documents"]; ["src"; "Documents"; "a.txt"] ].

(** A desk: a hidden file, a picture with an upper-case extension, and a
    note whose name is already taken in [Documents]. *)
Definition desk_tree : FS.tree :=
  list_to_map
    [ (["src"], FS.Dir); (["src"; ".env"], FS.File);
      (["src"; "Documents"], FS.Dir); (["src"; "Documents"; "notes.txt"], FS.File);
      (["src"; "Photo.PNG"], FS.File); (["src"; "notes.txt"], FS.File) ].

(** What the traversal yields in a dry run: the entries of [src], then
    those of its sub-directory. *)
Definition desk_items : list path :=
  [ ["src"; ".env"]; ["src"; "Documents"]; ["src"; "Photo.PNG"]; ["src"; "notes.txt"];
    ["src"; "Documents"; "notes.txt"] ].

(** What it yields in a live run: by the time it comes to the
    sub-directories the two files have been moved, and it finds them where
    they now are. *)
Definition desk_items_late : list path :=
  [ ["src"; "Documents"; "notes (1).txt"]; ["src"; "Images"; "Photo.PNG"] ].

Definition desk_items_live : list path := desk_items ++ desk_items_late.

Definition desk_moved : list (path * path) :=
  [ (["src"; "Photo.PNG"], ["src"; "Images"; "Photo.PNG"]);
    (["src"; "notes.txt"], ["src"; "Documents"; "notes (1).txt"]) ].

(** What the dry run and the live run over the desk return, and what the
    live run leaves. *)
Definition desk_result : run_result :=
  RunResult desk_moved [] [ ["src"; ".env"] ] (Summary 3 2 0 1).

Definition desk_result_live : run_result :=
  RunResult desk_moved [] [ ["src"; ".env"] ] (Summary 5 2 0 1).

Definition desk_live : FS.tree * result (option run_result) :=
  organize_directory FS.no_faults ["src"] false false desk_items_live desk_tree.

(** An environment in which the existence test of [p] is refused. *)
Definition deny_exists (p : path) : FS.call → option exn :=
  λ c, match c with
       | FS.Exists q =>
           if bool_decide (q = p) then Some (Exn PermissionError "Permission denied")
           else None
       | _ => None
       end.

(** * Properties *)

(** ** Strings and names *)

Section StringFacts.
Implicit Types (s t : string) (c a : ascii).

Lemma app_cons a s t : String a s +:+ t = String a (s +:+ t).
Proof. done. Qed.

Lemma len_cons a s : Str.len (String a s) = 1 + Str.len s.
Proof. unfold Str.len. cbn [String.length]. lia. Qed.

Lemma len_nonneg s : 0 <= Str.len s.
Proof. unfold Str.len. lia. Qed.

Lemma len_app s t : Str.len (s +:+ t) = Str.len s + Str.len t.
Proof.
  induction s as [|a s IH]; [done|].
  rewrite app_cons, !len_cons, IH. lia.
Qed.

Lemma app_assoc_str s t u : (s +:+ t) +:+ u = s +:+ (t +:+ u).
Proof. induction s as [|a s IH]; [done|]. by rewrite !app_cons, IH. Qed.

Lemma app_inj_r s1 s2 t : s1 +:+ t = s2 +:+ t → s1 = s2.
Proof.
  revert s2. induction s1 as [|a s1 IH]; intros [|b s2] H.
  - done.
  - apply (f_equal Str.len) in H. rewrite !len_app, len_cons in H.
    pose proof (len_nonneg s2). change (Str.len "") with 0 in H. lia.
  - apply (f_equal Str.len) in H. rewrite !len_app, len_cons in H.
    pose proof (len_nonneg s1). change (Str.len "") with 0 in H. lia.
  - rewrite !app_cons in H. injection H as -> H. f_equal. by apply IH.
Qed.

Lemma take_drop n s : Str.take n s +:+ Str.drop n s = s.
Proof.
  revert s. induction n as [|n IH]; intros [|a s]; cbn [Str.take Str.drop]; try done.
  by rewrite app_cons, IH.
Qed.

Lemma rfind_cons c a s :
  Str.rfind c (String a s) =
    if 0 <=? Str.rfind c s then Str.rfind c s + 1
    else if Ascii.eqb a c then 0 else -1.
Proof. done. Qed.

Lemma rfind_bounds c s : -1 <= Str.rfind c s < Str.len s.
Proof.
  induction s as [|a s IH]; [done|].
  rewrite rfind_cons, len_cons.
  destruct (0 <=? Str.rfind c s) eqn:E; [lia|].
  destruct (Ascii.eqb a c); lia.
Qed.

(** Appending a string without [c] does not move the last [c]. *)
Lemma rfind_app_absent c s t :
  Str.rfind c t = -1 → Str.rfind c (s +:+ t) = Str.rfind c s.
Proof.
  intros Ht. induction s as [|a s IH]; [done|].
  by rewrite app_cons, !rfind_cons, IH.
Qed.

(** The last [c] of [s +:+ t] is the last [c] of [t], when there is one. *)
Lemma rfind_app_present c s t :
  0 <= Str.rfind c t → Str.rfind c (s +:+ t) = Str.len s + Str.rfind c t.
Proof.
  intros Ht. induction s as [|a s IH]; [done|].
  rewrite app_cons, rfind_cons, len_cons, IH.
  pose proof (len_nonneg s).
  destruct (0 <=? _) eqn:E; lia.
Qed.

(** From the last [c] on, the string is [c] followed by a string without
    [c]. *)
Lemma drop_rfind c s :
  0 <= Str.rfind c s →
  ∃ r, Str.drop (Z.to_nat (Str.rfind c s)) s = String c r ∧ Str.rfind c r = -1.
Proof.
  induction s as [|a s IH]; [done|].
  rewrite rfind_cons.
  destruct (0 <=? Str.rfind c s) eqn:E.
  - intros _. apply Z.leb_le in E. destruct (IH E) as (r & Hr & Hn).
    exists r. split; [|done].
    replace (Z.to_nat (Str.rfind c s + 1)) with (S (Z.to_nat (Str.rfind c s))) by lia.
    done.
  - apply Z.leb_gt in E. destruct (Ascii.eqb a c) eqn:Ea; [|done].
    intros _. apply Ascii.eqb_eq in Ea as ->. exists s. split; [done|].
    pose proof (rfind_bounds c s). lia.
Qed.

Lemma len_take n s : Z.of_nat n <= Str.len s → Str.len (Str.take n s) = Z.of_nat n.
Proof.
  revert s. induction n as [|n IH]; intros [|a s]; cbn [Str.take]; try done.
  rewrite !len_cons. intros. rewrite IH; lia.
Qed.

End StringFacts.

Section NameFacts.
Implicit Types (s t nm : string) (p target : path) (k : nat).

Lemma drop_app_len s t : Str.drop (Z.to_nat (Str.len s)) (s +:+ t) = t.
Proof.
  unfold Str.len. rewrite Nat2Z.id.
  induction s as [|a s IH]; [done|]. by rewrite app_cons.
Qed.

(** [name == stem + suffix] *)
Lemma stem_suffix nm :
  PurePath.stem_of_name nm +:+ PurePath.suffix_of_name nm = nm.
Proof.
  unfold PurePath.stem_of_name, PurePath.suffix_of_name.
  destruct (PurePath.has_suffix nm).
  - apply take_drop.
  - generalize nm. induction nm0 as [|a s IH]; [done|]. by rewrite app_cons, IH.
Qed.

Lemma name_joinpath p s : PurePath.name (p // s) = s.
Proof. unfold PurePath.name, PurePath.joinpath. by rewrite last_snoc. Qed.

Lemma parent_joinpath p s : PurePath.parent (p // s) = p.
Proof. unfold PurePath.parent, PurePath.joinpath. apply removelast_last. Qed.

Lemma joinpath_inj p1 p2 s1 s2 : p1 // s1 = p2 // s2 → p1 = p2 ∧ s1 = s2.
Proof. unfold PurePath.joinpath. intros H. by apply app_inj_tail in H. Qed.

Lemma joinpath_not_root p s : p // s ≠ [].
Proof. unfold PurePath.joinpath. by destruct p. Qed.

Lemma node_at_joinpath (t : FS.tree) p s : FS.node_at t (p // s) = t !! (p // s).
Proof. unfold FS.node_at. pose proof (joinpath_not_root p s). by destruct (p // s). Qed.

(** Decimal numerals contain no dot. *)
Lemma pretty_N_go_no_dot (x : N) s :
  Str.rfind "." s = -1 → Str.rfind "." (pretty_N_go x s) = -1.
Proof.
  revert s. induction (N.lt_wf_0 x) as [x _ IH]; intros s Hs.
  destruct (decide (x = 0%N)) as [->|Hx]; [by rewrite pretty_N_go_0|].
  rewrite pretty_N_go_step by lia. apply IH.
  - apply N.div_lt; lia.
  - rewrite rfind_cons, Hs. unfold pretty_N_char.
    by repeat case_match.
Qed.

Lemma pretty_nat_no_dot k : Str.rfind "." (pretty k) = -1.
Proof.
  unfold pretty, pretty_nat, pretty, pretty_N.
  case_decide; [done|]. by apply pretty_N_go_no_dot.
Qed.

Lemma numbered_name target k :
  PurePath.name (numbered target k) =
    PurePath.stem target +:+ tag k +:+ PurePath.suffix target.
Proof.
  unfold numbered, tag. rewrite name_joinpath. by rewrite !app_assoc_str.
Qed.

Lemma numbered_parent target k :
  PurePath.parent (numbered target k) = PurePath.parent target.
Proof. unfold numbered. apply parent_joinpath. Qed.

Lemma numbered_inj target k1 k2 :
  numbered target k1 = numbered target k2 → k1 = k2.
Proof.
  unfold numbered. intros H. apply joinpath_inj in H as [_ H].
  apply (inj (String.app _)) in H. apply (inj (String.app _)) in H.
  apply app_inj_r in H. by apply (inj pretty) in H.
Qed.

Lemma tag_no_dot k s : Str.rfind "." s = -1 → Str.rfind "." (tag k +:+ s) = -1.
Proof.
  intros Hs. unfold tag. rewrite !app_assoc_str.
  change (" (" +:+ ?x) with (String " " (String "(" x)).
  rewrite !rfind_cons.
  rewrite (rfind_app_absent _ (pretty k)).
  - by rewrite pretty_nat_no_dot.
  - change (")" +:+ s) with (String ")" s). by rewrite rfind_cons, Hs.
Qed.

Lemma tag_cons k : ∃ r, tag k = String " " r.
Proof. by eexists. Qed.

Lemma CATEGORIES_no_space r : CATEGORIES !! String "." (String " " r) = None.
Proof.
  apply not_elem_of_list_to_map_1. cbn. intros H.
  repeat (apply elem_of_cons in H as [H|H]; [discriminate|]).
  by apply elem_of_nil in H.
Qed.

End NameFacts.

Section CategoryFacts.
Implicit Types (s t nm : string) (p target item : path) (k : nat).

Lemma category_of_ext_empty : category_of_ext (Str.lower "") = "Other".
Proof. done. Qed.

(** The renamed file has the extension class of the original: either the
    very same suffix, or a suffix no table entry matches where the
    original has none. *)
Lemma suffix_tagged nm k :
  let nm' := PurePath.stem_of_name nm +:+ tag k +:+ PurePath.suffix_of_name nm in
  PurePath.suffix_of_name nm' = PurePath.suffix_of_name nm ∨
  (PurePath.suffix_of_name nm = "" ∧
   ∃ r, PurePath.suffix_of_name nm' = String "." (String " " r)).
Proof.
  intros nm'. subst nm'.
  pose proof (rfind_bounds "." nm) as Hb.
  destruct (PurePath.has_suffix nm) eqn:Hs.
  - (* the name has a suffix: the tag lands in front of it *)
    left.
    assert (PurePath.stem_of_name nm = Str.take (Z.to_nat (Str.rfind "." nm)) nm) as ->
      by (unfold PurePath.stem_of_name; by rewrite Hs).
    assert (PurePath.suffix_of_name nm = Str.drop (Z.to_nat (Str.rfind "." nm)) nm) as ->
      by (unfold PurePath.suffix_of_name; by rewrite Hs).
    unfold PurePath.has_suffix in Hs.
    apply andb_prop in Hs as [H0 H1]. apply Z.ltb_lt in H0, H1.
    set (i := Str.rfind "." nm) in *.
    destruct (drop_rfind "." nm) as (r & Hr & Hnr); [lia|]. fold i in Hr.
    pose proof (take_drop (Z.to_nat i) nm) as Hsplit.
    pose proof (len_take (Z.to_nat i) nm) as Hlt.
    rewrite Z2Nat.id in Hlt by lia. specialize (Hlt ltac:(lia)).
    assert (1 <= Str.len r) as Hlr.
    { apply (f_equal Str.len) in Hsplit.
      rewrite len_app, Hlt, Hr, len_cons in Hsplit. lia. }
    rewrite Hr. set (pre := Str.take (Z.to_nat i) nm) in *.
    rewrite <-app_assoc_str.
    assert (Str.rfind "." (String "." r) = 0) as Hdot by by rewrite rfind_cons, Hnr.
    assert (Str.rfind "." ((pre +:+ tag k) +:+ String "." r) = Str.len (pre +:+ tag k)) as Hrf.
    { rewrite rfind_app_present; lia. }
    unfold PurePath.suffix_of_name, PurePath.has_suffix. rewrite Hrf.
    assert (0 < Str.len (pre +:+ tag k)).
    { rewrite len_app. pose proof (len_nonneg (tag k)). lia. }
    rewrite (len_app (pre +:+ tag k)), len_cons.
    rewrite (proj2 (Z.ltb_lt 0 _)) by lia.
    rewrite (proj2 (Z.ltb_lt _ _)) by lia.
    cbn [andb]. apply drop_app_len.
  - (* no suffix: the tag is appended to the whole name *)
    assert (PurePath.stem_of_name nm = nm) as ->
      by (unfold PurePath.stem_of_name; by rewrite Hs).
    assert (PurePath.suffix_of_name nm = "") as ->
      by (unfold PurePath.suffix_of_name; by rewrite Hs).
    assert (Str.rfind "." (tag k +:+ "") = -1) as Htag by by apply tag_no_dot.
    unfold PurePath.suffix_of_name, PurePath.has_suffix.
    rewrite rfind_app_absent by done.
    set (i := Str.rfind "." nm) in *.
    destruct ((0 <? i) && _) eqn:Hs'; [|by left].
    right. split; [done|].
    apply andb_prop in Hs' as [H0 _]. apply Z.ltb_lt in H0.
    unfold PurePath.has_suffix in Hs. fold i in Hs.
    apply andb_false_iff in Hs as [Hs|Hs]; apply Z.ltb_ge in Hs; [lia|].
    destruct (drop_rfind "." nm) as (r & Hr & Hnr); [lia|]. fold i in Hr.
    pose proof (take_drop (Z.to_nat i) nm) as Hsplit.
    pose proof (len_take (Z.to_nat i) nm) as Hlt.
    rewrite Z2Nat.id in Hlt by lia. specialize (Hlt ltac:(lia)).
    assert (r = "") as ->.
    { apply (f_equal Str.len) in Hsplit.
      rewrite len_app, Hlt, Hr, len_cons in Hsplit.
      destruct r; [done|]. rewrite len_cons in Hsplit.
      pose proof (len_nonneg r). lia. }
    destruct (tag_cons k) as [r Htg].
    exists (r +:+ "").
    set (pre := Str.take (Z.to_nat i) nm) in *.
    rewrite <-Hsplit, Hr, app_assoc_str.
    replace (Z.to_nat i) with (Z.to_nat (Str.len pre)) by (by rewrite Hlt).
    rewrite drop_app_len. by rewrite Htg.
Qed.

Lemma lower_cons a s : Str.lower (String a s) = String (Str.lower_char a) (Str.lower s).
Proof. done. Qed.

(** [resolve_conflict] never changes the category of a file. *)
Lemma category_of_numbered target k :
  category_of (numbered target k) = category_of target.
Proof.
  unfold category_of, PurePath.suffix. rewrite numbered_name.
  unfold PurePath.stem, PurePath.suffix.
  destruct (suffix_tagged (PurePath.name target) k) as [->|[-> [r ->]]]; [done|].
  rewrite category_of_ext_empty, !lower_cons.
  unfold category_of_ext.
  change (Str.lower_char ".") with "."%char.
  change (Str.lower_char " ") with " "%char.
  by rewrite CATEGORIES_no_space.
Qed.

Lemma category_of_joinpath p item :
  category_of (p // PurePath.name item) = category_of item.
Proof. unfold category_of, PurePath.suffix. by rewrite name_joinpath. Qed.

End CategoryFacts.

(** ** The category of a file *)

Lemma CATEGORIES_keys_lower k c : CATEGORIES !! k = Some c → Str.lower k = k.
Proof.
  intros H. apply elem_of_list_to_map_2 in H.
  repeat (apply elem_of_cons in H as [H|H]; [by injection H as -> _|]).
  by apply elem_of_nil in H.
Qed.

Lemma lower_char_upper_case_of a b : upper_case_of a b = true → Str.lower_char a = b.
Proof.
  unfold upper_case_of, Str.lower_char. cbv zeta.
  intros [Hup Hb%N.eqb_eq]%andb_prop. rewrite Hup, <-Hb.
  apply ascii_N_embedding.
Qed.

Lemma same_char_lower a b :
  same_char_up_to_case a b = true → Str.lower_char b = b → Str.lower_char a = b.
Proof.
  unfold same_char_up_to_case.
  intros [[Heq|Hup]%orb_prop|Hup]%orb_prop Hb.
  - apply Ascii.eqb_eq in Heq. by subst.
  - by apply lower_char_upper_case_of.
  - pose proof (lower_char_upper_case_of _ _ Hup) as Ha. rewrite Hb in Ha. subst a.
    unfold upper_case_of in Hup. cbv zeta in Hup.
    apply andb_prop in Hup as [_ Hup%N.eqb_eq]. lia.
Qed.

Lemma same_up_to_case_lower s k :
  same_up_to_case s k = true → Str.lower k = k → Str.lower s = k.
Proof.
  revert k. induction s as [|a s IH]; intros [|b k]; cbn; try done.
  intros [Hc Hs]%andb_prop [= Hb Hk]. f_equal; [by apply same_char_lower|by apply IH].
Qed.

Lemma same_up_to_case_of_lower s : same_up_to_case s (Str.lower s) = true.
Proof.
  induction s as [|a s IH]; [done|]. cbn. rewrite IH, andb_true_r.
  unfold same_char_up_to_case, upper_case_of, Str.lower_char. cbv zeta.
  destruct ((65 <=? N_of_ascii a) && (N_of_ascii a <=? 90))%N eqn:Hup.
  - apply andb_prop in Hup as [?%N.leb_le ?%N.leb_le].
    rewrite N_ascii_embedding by lia. rewrite N.eqb_refl. cbn.
    by rewrite orb_true_r.
  - by rewrite Ascii.eqb_refl.
Qed.

(** C7.  The category of a file is the table entry of its extension
    whatever the case of its letters: when the extension is, up to letter
    case, a key of [CATEGORIES], the category is that key's entry; when it is
    no key in any case of its letters, the empty extension of a file without
    one included, the category is ["Other"]. *)
Theorem category_by_lowercased_extension (item : path) :
  (∀ k c,
     CATEGORIES !! k = Some c →
     same_up_to_case (PurePath.suffix item) k = true →
     category_of item = c) ∧
  ((∀ k, same_up_to_case (PurePath.suffix item) k = true → CATEGORIES !! k = None) →
   category_of item = "Other") ∧
  (PurePath.suffix item = "" → category_of item = "Other").
Proof.
  split_and!.
  - intros k c Hk Hsame. unfold category_of, category_of_ext.
    by rewrite (same_up_to_case_lower _ k Hsame (CATEGORIES_keys_lower k c Hk)), Hk.
  - intros Hnone. unfold category_of, category_of_ext.
    by rewrite (Hnone _ (same_up_to_case_of_lower _)).
  - intros He. unfold category_of. by rewrite He.
Qed.

Lemma category_by_lowercased_extension_witness :
  category_of ["pics"; "Holiday.PNG"] = "Images" ∧
  category_of ["pics"; "holiday.Png"] = "Images" ∧
  category_of ["pics"; "holiday.png"] = "Images" ∧
  category_of ["notes"] = "Other".
Proof.
  split_and!.
  - apply (proj1 (category_by_lowercased_extension ["pics"; "Holiday.PNG"])
             ".png" "Images"); reflexivity.
  - apply (proj1 (category_by_lowercased_extension ["pics"; "holiday.Png"])
             ".png" "Images"); reflexivity.
  - apply (proj1 (category_by_lowercased_extension ["pics"; "holiday.png"])
             ".png" "Images"); reflexivity.
  - apply (proj2 (proj2 (category_by_lowercased_extension ["notes"]))). reflexivity.
Defined.

Example category_PNG : category_of ["pics"; "Holiday.PNG"] = "Images".
Proof. reflexivity. Qed.

Example category_png : category_of ["pics"; "holiday.png"] = "Images".
Proof. reflexivity. Qed.

Example category_no_extension : category_of ["notes"] = "Other".
Proof. reflexivity. Qed.

Example category_dotfile : category_of [".bashrc"] = "Other".
Proof. reflexivity. Qed.

Example category_last_suffix_only : category_of ["backup.TAR.Gz"] = "Archives".
Proof. reflexivity. Qed.

(** ** Conflict resolution *)

Section ConflictFacts.
Local Open Scope nat_scope.
Variable faults : FS.call → option exn.
Implicit Types (t : FS.tree) (target p : path) (k j c fuel : nat) (st : state).

Lemma path_exists_Ok t p b :
  FS.path_exists faults t p = Ok b → FS.exists_in t p = b.
Proof.
  unfold FS.path_exists, FS.guarded. destruct (faults _); [done|]. by intros [= ->].
Qed.

Lemma path_exists_no_fault t p :
  faults (FS.Exists p) = None → FS.path_exists faults t p = Ok (FS.exists_in t p).
Proof. unfold FS.path_exists, FS.guarded. by intros ->. Qed.

Lemma exists_in_dom t p : p ≠ [] → FS.exists_in t p = true → p ∈ dom t.
Proof.
  intros Hp. unfold FS.exists_in, FS.node_at. destruct p; [done|].
  intros H. apply elem_of_dom. destruct (t !! _); [done|discriminate].
Qed.

Lemma numbered_not_root target k : numbered target k ≠ [].
Proof. apply joinpath_not_root. Qed.

(** The loop stops within [size occ + 1] tests when the taken candidates
    all lie in the finite set [occ]: candidates are pairwise distinct, so
    each taken one uses up an element of [occ]. *)
Lemma resolve_conflict_loop_enough fuel t target c (occ : gset path) :
  (∀ j, c ≤ j → FS.path_exists faults t (numbered target j) = Ok true →
        numbered target j ∈ occ) →
  size occ < fuel →
  ∃ k, c ≤ k ≤ c + size occ ∧
       (∀ j, c ≤ j < k → FS.path_exists faults t (numbered target j) = Ok true) ∧
       FS.path_exists faults t (numbered target k) ≠ Ok true ∧
       resolve_conflict_loop faults fuel t target c = Some (loop_outcome faults t target k).
Proof.
  revert c occ. induction fuel as [|fuel IH]; intros c occ Hocc Hsz; [lia|].
  cbn [resolve_conflict_loop]. unfold loop_outcome.
  destruct (FS.path_exists faults t (numbered target c)) as [[|]|e] eqn:E.
  - assert (numbered target c ∈ occ) as Hin by (apply Hocc; [lia|done]).
    assert (size (occ ∖ {[numbered target c]}) = size occ - 1) as Hsize.
    { rewrite size_difference by set_solver. by rewrite size_singleton. }
    assert (size occ ≠ 0) as Hpos.
    { intros H0. apply size_empty_inv in H0. set_solver. }
    destruct (IH (c + 1) (occ ∖ {[numbered target c]})) as (k & Hk & Hall & Hstop & Hloop).
    + intros j Hj Hex. apply elem_of_difference. split; [apply Hocc; [lia|done]|].
      rewrite elem_of_singleton. intros Heq%numbered_inj. lia.
    + lia.
    + exists k. split_and!; [lia|lia| |done|done].
      intros j Hj. destruct (decide (j = c)) as [->|]; [done|]. apply Hall. lia.
  - exists c. rewrite E. split_and!; [lia|lia| |done|done]. intros j Hj. lia.
  - exists c. rewrite E. split_and!; [lia|lia| |done|done]. intros j Hj. lia.
Qed.

(** More fuel does not change a result. *)
Lemma resolve_conflict_loop_more fuel extra t target c r :
  resolve_conflict_loop faults fuel t target c = Some r →
  resolve_conflict_loop faults (fuel + extra) t target c = Some r.
Proof.
  revert c. induction fuel as [|fuel IH]; intros c; [done|].
  cbn [resolve_conflict_loop Nat.add].
  destruct (FS.path_exists faults t (numbered target c)) as [[|]|e]; auto.
Qed.

(** The number of tests [resolve_conflict] allows is never reached. *)
Lemma resolve_conflict_fuel t target :
  ∃ k, 1 ≤ k ≤ S (size t) ∧
       (∀ j, 1 ≤ j < k → FS.path_exists faults t (numbered target j) = Ok true) ∧
       FS.path_exists faults t (numbered target k) ≠ Ok true ∧
       resolve_conflict_loop faults (S (size t)) t target 1 = Some (loop_outcome faults t target k).
Proof.
  destruct (resolve_conflict_loop_enough (S (size t)) t target 1 (dom t))
    as (k & Hk & Hall & Hstop & Hloop).
  - intros j _ Hex. apply exists_in_dom; [apply numbered_not_root|].
    by apply path_exists_Ok in Hex.
  - rewrite size_dom. lia.
  - exists k. rewrite size_dom in Hk. split_and!; [lia|lia|done..].
Qed.

(** The first free candidate is what [resolve_conflict] returns. *)
Lemma resolve_conflict_first_free st target k :
  1 ≤ k →
  (∀ j, 1 ≤ j < k → FS.path_exists faults (fs st) (numbered target j) = Ok true) →
  FS.path_exists faults (fs st) (numbered target k) = Ok false →
  resolve_conflict faults target st = (st, Ok (numbered target k)).
Proof.
  intros Hk Htaken Hfree. unfold resolve_conflict, inspect.
  destruct (resolve_conflict_fuel (fs st) target) as (k' & Hk' & Hall & Hstop & ->).
  assert (k' = k) as ->.
  { destruct (Nat.lt_trichotomy k' k) as [Hlt|[->|Hgt]]; [|done|].
    - destruct Hstop. apply Htaken. lia.
    - rewrite Hall in Hfree by lia. discriminate. }
  unfold loop_outcome. by rewrite Hfree.
Qed.

(** Whatever [resolve_conflict] returns is free. *)
Lemma resolve_conflict_Ok st st' target p :
  resolve_conflict faults target st = (st', Ok p) →
  st' = st ∧ FS.exists_in (fs st) p = false ∧
  ∃ k, 1 ≤ k ∧ p = numbered target k.
Proof.
  unfold resolve_conflict, inspect.
  destruct (resolve_conflict_fuel (fs st) target) as (k & Hk & Hall & Hstop & ->).
  unfold loop_outcome.
  destruct (FS.path_exists faults (fs st) (numbered target k)) as [[|]|e] eqn:E;
    [done| |done].
  intros [= <- <-]. apply path_exists_Ok in E. split_and!; [done|done|].
  exists k. split; [lia|done].
Qed.

End ConflictFacts.

Example numbered_example :
  numbered ["docs"; "archive.tar.gz"] 12 = ["docs"; "archive.tar (12).gz"].
Proof. reflexivity. Qed.

(** [resolve_conflict] itself never tests its argument: the test of line 116
    is made by its caller. *)
Example resolve_conflict_alone :
  resolve_conflict FS.no_faults ["docs"; "new.txt"] taken_state
  = (taken_state, Ok ["docs"; "new (1).txt"]).
Proof. compute_done. Qed.

(** C5.  When the existence test on the candidate path answers false, the
    destination chosen at lines 116-119 is the candidate path itself: no
    numbered variant is built and nothing else changes. *)
Theorem candidate_kept_when_free (faults : FS.call → option exn) (st : state) (target_path : path) :
  FS.path_exists faults (fs st) target_path = Ok false →
  conflict_free faults target_path st = (st, Ok target_path).
Proof.
  intros H. unfold conflict_free, bind, inspect. by rewrite H.
Qed.

Lemma candidate_kept_when_free_witness :
  conflict_free FS.no_faults ["docs"; "new.txt"] taken_state
  = (taken_state, Ok ["docs"; "new.txt"]).
Proof.
  apply (candidate_kept_when_free FS.no_faults taken_state ["docs"; "new.txt"]).
  reflexivity.
Defined.

(** C6.  When the candidate path exists, the destination is the numbered
    variant [stem (k)suffix] for the first [k >= 1] whose variant does not
    exist: the variant lies in the candidate's directory and its name is the
    candidate's name with [" (k)"] inserted between stem and suffix.  With
    [k = N + 1]: if the candidate and its variants [1 .. N] exist and variant
    [N + 1] does not, the destination is variant [N + 1]. *)
Theorem conflict_resolution_numbering (faults : FS.call → option exn) (st : state) (target : path) (k : nat) :
  FS.path_exists faults (fs st) target = Ok true →
  (1 ≤ k)%nat →
  (∀ j, (1 ≤ j < k)%nat →
        FS.path_exists faults (fs st) (numbered target j) = Ok true) →
  FS.path_exists faults (fs st) (numbered target k) = Ok false →
  conflict_free faults target st = (st, Ok (numbered target k)) ∧
  PurePath.parent (numbered target k) = PurePath.parent target ∧
  PurePath.name (numbered target k) =
    PurePath.stem target +:+ " (" +:+ pretty k +:+ ")" +:+ PurePath.suffix target ∧
  PurePath.stem target +:+ PurePath.suffix target = PurePath.name target.
Proof.
  intros Hex Hk Htaken Hfree. split_and!.
  - unfold conflict_free, bind, inspect. rewrite Hex.
    by apply resolve_conflict_first_free.
  - apply numbered_parent.
  - unfold numbered. by rewrite name_joinpath.
  - apply stem_suffix.
Qed.

Lemma conflict_resolution_numbering_witness :
  conflict_free FS.no_faults ["docs"; "report.txt"] taken_state
  = (taken_state, Ok ["docs"; "report (3).txt"]).
Proof.
  refine (proj1 (conflict_resolution_numbering FS.no_faults taken_state
                   ["docs"; "report.txt"] 3 _ _ _ _)).
  - reflexivity.
  - lia.
  - intros j Hj. assert (j = 1 ∨ j = 2)%nat as [-> | ->] by lia; reflexivity.
  - reflexivity.
Defined.

(** C8.  The loop of [resolve_conflict] terminates: for every finite set
    [occ] holding the occupied paths, [size occ + 1] tests of the loop
    condition suffice; the loop stops at some [k <= size occ + 1], after the
    [k - 1] occupied variants it met, and returns variant [k], which is
    free.  The bound [resolve_conflict] uses is therefore never reached. *)
Theorem resolve_conflict_terminates (faults : FS.call → option exn) (t : FS.tree) (target : path)
    (occ : gset path) (fuel : nat) :
  (∀ p, faults (FS.Exists p) = None) →
  dom t ⊆ occ →
  (size occ < fuel)%nat →
  ∃ k, (1 ≤ k ≤ size occ + 1)%nat ∧
       (∀ j, (1 ≤ j < k)%nat → FS.exists_in t (numbered target j) = true) ∧
       FS.exists_in t (numbered target k) = false ∧
       resolve_conflict_loop faults fuel t target 1 = Some (Ok (numbered target k)) ∧
       ∀ st, fs st = t → resolve_conflict faults target st = (st, Ok (numbered target k)).
Proof.
  intros Hnf Hocc Hfuel.
  destruct (resolve_conflict_loop_enough faults fuel t target 1 occ)
    as (k & Hk & Hall & Hstop & Hloop); [|done|].
  { intros j _ Hex. apply Hocc, exists_in_dom; [apply numbered_not_root|].
    by apply path_exists_Ok in Hex. }
  assert (FS.path_exists faults t (numbered target k) = Ok false) as Hfree.
  { rewrite path_exists_no_fault in * by done.
    destruct (FS.exists_in t (numbered target k)); [by destruct Hstop|done]. }
  exists k. split_and!.
  - lia.
  - lia.
  - intros j Hj. by eapply path_exists_Ok, Hall.
  - by eapply path_exists_Ok.
  - rewrite Hloop. unfold loop_outcome. by rewrite Hfree.
  - intros st <-. apply resolve_conflict_first_free; [lia|done..].
Qed.

Lemma resolve_conflict_terminates_witness :
  ∃ k, (1 ≤ k ≤ size (dom taken_tree) + 1)%nat ∧
       (∀ j, (1 ≤ j < k)%nat →
             FS.exists_in taken_tree (numbered ["docs"; "report.txt"] j) = true) ∧
       FS.exists_in taken_tree (numbered ["docs"; "report.txt"] k) = false ∧
       resolve_conflict_loop FS.no_faults 5 taken_tree ["docs"; "report.txt"] 1
         = Some (Ok (numbered ["docs"; "report.txt"] k)) ∧
       ∀ st, fs st = taken_tree →
             resolve_conflict FS.no_faults ["docs"; "report.txt"] st
             = (st, Ok (numbered ["docs"; "report.txt"] k)).
Proof.
  apply (resolve_conflict_terminates FS.no_faults taken_tree ["docs"; "report.txt"]
           (dom taken_tree) 5).
  - reflexivity.
  - reflexivity.
  - vm_compute. lia.
Defined.

(** ** One iteration of the loop *)

Section MonadFacts.
Context {A B : Type}.
Implicit Types (st : state).

Lemma bind_inv (m : M A) (k : A → M B) st st' r :
  bind m k st = (st', r) →
  (∃ a st1, m st = (st1, Ok a) ∧ k a st1 = (st', r)) ∨
  (∃ e, m st = (st', Raise e) ∧ r = Raise e).
Proof.
  unfold bind. destruct (m st) as [st1 [a|e]]; [by eauto 6|].
  intros [= <- <-]. by eauto.
Qed.

Lemma ret_inv (a : A) st st' r : ret a st = (st', r) → st' = st ∧ r = Ok a.
Proof. by intros [= <- <-]. Qed.

Lemma inspect_inv (f : FS.tree → result A) st st' r :
  inspect f st = (st', r) → st' = st ∧ r = f (fs st).
Proof. by intros [= <- <-]. Qed.
End MonadFacts.

Lemma modify_inv (f : state → state) st st' r :
  modify f st = (st', r) → st' = f st ∧ r = Ok tt.
Proof. by intros [= <- <-]. Qed.

Lemma mutate_inv (f : FS.tree → result FS.tree) st st' r :
  mutate f st = (st', r) →
  (∃ t', f (fs st) = Ok t' ∧ st' = set_fs t' st ∧ r = Ok tt) ∨
  (∃ e, f (fs st) = Raise e ∧ st' = st ∧ r = Raise e).
Proof.
  unfold mutate. destruct (f (fs st)) as [t'|e]; intros [= <- <-]; by eauto 6.
Qed.

Lemma act_inv (f : FS.tree → FS.tree * result unit) st st' r :
  act f st = (st', r) → st' = set_fs (f (fs st)).1 st ∧ r = (f (fs st)).2.
Proof. by intros [= <- <-]. Qed.

Lemma when_inv (b : bool) (m : M unit) st st' r :
  when b m st = (st', r) →
  (b = true ∧ m st = (st', r)) ∨ (b = false ∧ st' = st ∧ r = Ok tt).
Proof. destruct b; cbn; [by eauto|]. intros [= <- <-]. by eauto. Qed.

(** Inversion of one run of a monadic statement, step by step. *)
Ltac inv_step :=
  repeat (match goal with
    | H : bind _ _ _ = _ |- _ =>
        apply bind_inv in H as [(? & ? & ? & H) | (? & H & ?)]
    | H : ret _ _ = _ |- _ => apply ret_inv in H as [? ?]
    | H : inspect _ _ = _ |- _ => apply inspect_inv in H as [? H]; symmetry in H
    | H : modify _ _ = _ |- _ => apply modify_inv in H as [? ?]
    | H : when _ _ _ = _ |- _ =>
        apply when_inv in H as [[? H] | (? & ? & ?)]
    | H : mutate _ _ = _ |- _ =>
        apply mutate_inv in H as [(? & H & ? & ?) | (? & H & ? & ?)]
    | H : act _ _ = _ |- _ => apply act_inv in H as [? ?]
    | H : (if ?b then _ else _) _ = _ |- _ => destruct b eqn:?
    end; simplify_eq).

Section StepFacts.
Local Open Scope nat_scope.
Variable faults : FS.call → option exn.
Variables (source : path) (dry_run include_hidden : bool).
Implicit Types (t : FS.tree) (item p : path) (st : state).

Lemma resolve_conflict_state st st' target r :
  resolve_conflict faults target st = (st', r) → st' = st.
Proof. unfold resolve_conflict, inspect. by intros [= <- _]. Qed.

Lemma is_same_file_inv a b st st' r :
  is_same_file faults a b st = (st', r) → st' = st ∧ ∃ same, r = Ok same.
Proof.
  unfold is_same_file. intros [-> ->]%inspect_inv. split; [done|].
  repeat case_match; eauto.
Qed.

(** The destination chosen at lines 116-119 is free, and is the candidate
    or one of its numbered variants. *)
Lemma conflict_free_inv target st st' dest :
  conflict_free faults target st = (st', Ok dest) →
  st' = st ∧ FS.exists_in (fs st) dest = false ∧
  (dest = target ∨ ∃ k, 1 ≤ k ∧ dest = numbered target k).
Proof.
  unfold conflict_free. intros H. inv_step.
  - apply resolve_conflict_Ok in H as (-> & ? & ?). eauto.
  - apply path_exists_Ok in H0. eauto.
Qed.

Lemma conflict_free_state target st st' r :
  conflict_free faults target st = (st', r) → st' = st.
Proof.
  unfold conflict_free. intros H. inv_step; try done.
  by apply resolve_conflict_state in H.
Qed.

Lemma conflict_free_parent target st st' dest :
  conflict_free faults target st = (st', Ok dest) →
  PurePath.parent dest = PurePath.parent target.
Proof.
  intros (_ & _ & [->|(k & _ & ->)])%conflict_free_inv; [done|].
  apply numbered_parent.
Qed.

(** The filters of lines 94-99 decide what an iteration does: nothing for
    a directory or a link, a skip for a hidden name, and otherwise the
    entry is counted once and at most one move, into the directory of its
    category, is recorded. *)
Lemma loop_body_cases st item st' r :
  loop_body faults source dry_run include_hidden item st = (st', r) →
  match FS.is_dir faults (fs st) item with
  | Raise e => st' = st ∧ r = Raise e
  | Ok true => st' = st ∧ r = Ok tt
  | Ok false =>
      match FS.is_symlink faults (fs st) item with
      | Raise e => st' = st ∧ r = Raise e
      | Ok true => st' = st ∧ r = Ok tt
      | Ok false =>
          if negb include_hidden && Str.startswith "." (PurePath.name item)
          then st' = append_skipped item st ∧ r = Ok tt
          else
            total_files st' = S (total_files st) ∧
            skipped st' = skipped st ∧ errors st' = errors st ∧
            (moved st' = moved st ∨
             ∃ dest, moved st' = moved st ++ [(item, dest)] ∧
                     PurePath.parent dest = source // category_of item ∧
                     r = Ok tt)
      end
  end.
Proof.
  unfold loop_body. cbv zeta. intros H. inv_step;
    repeat match goal with
      | H : is_same_file _ _ _ _ = _ |- _ => apply is_same_file_inv in H as [-> _]
      | H : conflict_free _ _ _ = (_, Ok _) |- _ =>
          pose proof (conflict_free_parent _ _ _ _ H);
          apply conflict_free_state in H as ->
      | H : conflict_free _ _ _ = _ |- _ => apply conflict_free_state in H as ->
      | H : FS.is_dir _ _ _ = _ |- _ => rewrite H
      | H : FS.is_symlink _ _ _ = _ |- _ => rewrite H
      | H : negb _ && _ = _ |- _ => rewrite H
      end; simplify_eq/=; split_and?; eauto;
    right; eexists; split_and!; eauto;
    by rewrite <-(parent_joinpath (source // category_of item) (PurePath.name item)).
Qed.

Lemma process_item_raise st item st' e :
  loop_body faults source dry_run include_hidden item st = (st', Raise e) →
  process_item faults source dry_run include_hidden st item
  = append_errors (item, exn_str e) st'.
Proof.
  intros H. unfold process_item. rewrite H. unfold except_clauses.
  by destruct (exn_class_of e).
Qed.

Lemma process_item_Ok st item st' u :
  loop_body faults source dry_run include_hidden item st = (st', Ok u) →
  process_item faults source dry_run include_hidden st item = st'.
Proof. intros H. unfold process_item. by rewrite H. Qed.

(** Records are only ever appended. *)
Lemma process_item_errors st item :
  errors st `prefix_of` errors (process_item faults source dry_run include_hidden st item).
Proof.
  destruct (loop_body faults source dry_run include_hidden item st) as [st' [u|e]] eqn:E.
  - rewrite (process_item_Ok _ _ _ _ E).
    apply loop_body_cases in E. repeat case_match; destruct_and?; simplify_eq/=;
      by try match goal with H : errors _ = errors _ |- _ => rewrite H end.
  - rewrite (process_item_raise _ _ _ _ E). cbn.
    apply loop_body_cases in E. repeat case_match; destruct_and?; simplify_eq/=;
      try match goal with H : errors _ = errors _ |- _ => rewrite H end;
      by apply prefix_app_r.
Qed.

Lemma run_errors st items :
  errors st `prefix_of`
    errors (foldl (process_item faults source dry_run include_hidden) st items).
Proof.
  revert st. induction items as [|item items IH]; intros st; [done|].
  cbn [foldl]. etrans; [apply process_item_errors|apply IH].
Qed.

End StepFacts.

(** ** The [for] statement *)

Section ForLoop.
Local Open Scope nat_scope.
Variable faults : FS.call → option exn.
Variables (source : path) (dry_run include_hidden : bool).
Implicit Types (t : FS.tree) (item p : path) (st : state) (items : list path).

(** The loop ends normally exactly when no advance of the generator fails,
    and has then gone through all the entries. *)
Lemma for_loop_Ok k items st st' u :
  for_loop faults source dry_run include_hidden k items st = (st', Ok u) →
  st' = foldl (process_item faults source dry_run include_hidden) st items ∧
  ∀ j, k ≤ j ≤ k + length items → faults (FS.Next j) = None.
Proof.
  revert k st. induction items as [|item items IH]; intros k st; cbn [for_loop foldl].
  - destruct (faults (FS.Next k)) eqn:E; [done|]. intros [= <- _]. split; [done|].
    intros j Hj. cbn in Hj. by replace j with k by lia.
  - destruct (faults (FS.Next k)) eqn:E; [done|]. intros [-> Hall]%IH. split; [done|].
    intros j Hj. cbn in Hj. destruct (decide (j = k)) as [->|?]; [done|].
    apply Hall. lia.
Qed.

Lemma for_loop_total k items st :
  (∀ j, k ≤ j ≤ k + length items → faults (FS.Next j) = None) →
  for_loop faults source dry_run include_hidden k items st
  = (foldl (process_item faults source dry_run include_hidden) st items, Ok tt).
Proof.
  revert k st. induction items as [|item items IH]; intros k st Hall;
    cbn [for_loop foldl]; (rewrite Hall by lia); [done|].
  apply IH. intros j Hj. apply Hall. cbn. lia.
Qed.

(** It ends with an exception exactly when an advance fails, and has then
    gone through the entries yielded before. *)
Lemma for_loop_Raise k items st st' e :
  for_loop faults source dry_run include_hidden k items st = (st', Raise e) →
  ∃ n, n ≤ length items ∧ faults (FS.Next (k + n)) = Some e ∧
       (∀ j, j < n → faults (FS.Next (k + j)) = None) ∧
       st' = foldl (process_item faults source dry_run include_hidden) st (take n items).
Proof.
  revert k st. induction items as [|item items IH]; intros k st; cbn [for_loop].
  - destruct (faults (FS.Next k)) eqn:E; [|done]. intros [= <- <-].
    exists 0. rewrite Nat.add_0_r. split_and!; [done|done|lia|done].
  - destruct (faults (FS.Next k)) eqn:E.
    + intros [= <- <-]. exists 0. rewrite Nat.add_0_r. split_and!; [lia|done|lia|done].
    + intros (n & Hn & He & Hall & ->)%IH. exists (S n).
      replace (k + S n) with (S k + n) by lia. split_and!; [cbn; lia|done| |done].
      intros j Hj. destruct j as [|j]; [by rewrite Nat.add_0_r|].
      replace (k + S j) with (S k + j) by lia. apply Hall. lia.
Qed.

(** A returned result is the report of the state reached by going through
    all the entries. *)
Lemma organize_directory_Some items t t' r :
  organize_directory faults source dry_run include_hidden items t = (t', Ok (Some r)) →
  FS.path_exists faults t source = Ok true ∧
  t' = fs (foldl (process_item faults source dry_run include_hidden) (initial t) items) ∧
  r = report (foldl (process_item faults source dry_run include_hidden) (initial t) items).
Proof.
  unfold organize_directory.
  destruct (FS.path_exists faults t source) as [[|]|e]; [|done..].
  destruct (for_loop _ _ _ _ _ _ _) as [st [u|e]] eqn:E; [|done].
  apply for_loop_Ok in E as [-> _]. by intros [= <- <-].
Qed.

Lemma organize_directory_Some_next items t t' r :
  organize_directory faults source dry_run include_hidden items t = (t', Ok (Some r)) →
  ∀ j, j ≤ length items → faults (FS.Next j) = None.
Proof.
  unfold organize_directory.
  destruct (FS.path_exists faults t source) as [[|]|e]; [|done..].
  destruct (for_loop _ _ _ _ _ _ _) as [st [u|e]] eqn:E; [|done].
  apply for_loop_Ok in E as [_ Hall]. intros _ j Hj. apply Hall. lia.
Qed.

Lemma organize_directory_total items t :
  FS.path_exists faults t source = Ok true →
  (∀ j, j ≤ length items → faults (FS.Next j) = None) →
  organize_directory faults source dry_run include_hidden items t
  = (fs (foldl (process_item faults source dry_run include_hidden) (initial t) items),
     Ok (Some (report
                 (foldl (process_item faults source dry_run include_hidden)
                    (initial t) items)))).
Proof.
  intros Hex Hall. unfold organize_directory. rewrite Hex, for_loop_total; [done|].
  intros j Hj. apply Hall. lia.
Qed.

End ForLoop.

(** ** Traversal and classification *)

(** C9, as stated, fails on hidden directories: with [include_hidden] false,
    the directory [.git] has a name starting with the hidden-file marker but
    is dropped by the directory test of line 94, before the hidden-name test
    of line 97, and is not recorded as a skip. *)
Lemma hidden_directory_not_skipped :
  Str.startswith "." (PurePath.name ["src"; ".git"]) = true ∧
  organize_directory FS.no_faults ["src"] false false [["src"; ".git"]] git_tree
  = (git_tree, Ok (Some (RunResult [] [] [] (Summary 0 0 0 0)))).
Proof. split; compute_done. Qed.

(** C9 (amended).  One iteration of the loop leaves the counters and lists
    untouched for a directory or a symbolic link; for any other entry, it
    records a skip and nothing else when [include_hidden] is false and the
    entry's name starts with a dot; and otherwise it increments
    [total_files] by exactly one, records no skip, and classifies the entry:
    a move, if one is recorded, goes to [source / category]. *)
Theorem traversal_filtering (faults : FS.call → option exn) (source : path)
    (dry_run include_hidden : bool) (st : state) (item : path) :
  let st' := process_item faults source dry_run include_hidden st item in
  (FS.is_dir faults (fs st) item = Ok true → st' = st) ∧
  (FS.is_dir faults (fs st) item = Ok false →
   FS.is_symlink faults (fs st) item = Ok true → st' = st) ∧
  (FS.is_dir faults (fs st) item = Ok false →
   FS.is_symlink faults (fs st) item = Ok false →
   include_hidden = false →
   Str.startswith "." (PurePath.name item) = true →
   st' = append_skipped item st) ∧
  (FS.is_dir faults (fs st) item = Ok false →
   FS.is_symlink faults (fs st) item = Ok false →
   include_hidden = true ∨ Str.startswith "." (PurePath.name item) = false →
   total_files st' = S (total_files st) ∧
   skipped st' = skipped st ∧
   (moved st' = moved st ∨
    ∃ dest, moved st' = moved st ++ [(item, dest)] ∧
            PurePath.parent dest = source // category_of item)).
Proof.
  intros st'. subst st'.
  destruct (loop_body faults source dry_run include_hidden item st) as [st1 r] eqn:E.
  pose proof (loop_body_cases _ _ _ _ _ _ _ _ E) as Hc.
  assert (process_item faults source dry_run include_hidden st item
          = match r with Ok _ => st1 | Raise e => append_errors (item, exn_str e) st1 end)
    as ->.
  { destruct r; [by eapply process_item_Ok|by apply process_item_raise]. }
  split_and!.
  - intros Hd. rewrite Hd in Hc. by destruct Hc as [-> ->].
  - intros Hd Hl. rewrite Hd, Hl in Hc. by destruct Hc as [-> ->].
  - intros Hd Hl -> Hh. rewrite Hd, Hl, Hh in Hc. by destruct Hc as [-> ->].
  - intros Hd Hl Hh. rewrite Hd, Hl in Hc.
    assert (negb include_hidden && Str.startswith "." (PurePath.name item) = false) as Hf.
    { destruct Hh as [-> | ->]; [done|by rewrite andb_false_r]. }
    rewrite Hf in Hc. destruct Hc as (Ht & Hs & _ & Hm).
    destruct r as [u|e]; cbn; (split_and!; [done|done|]);
      destruct Hm as [Hm|(dest & Hm & Hp & ?)]; eauto; simplify_eq.
Qed.

(** ** Failures *)

(** C4, as stated, fails: the generator of [source.rglob('*')] is advanced
    by the [for] statement of line 91, outside the [try] block of line 92.
    When advancing it fails after two entries, the first file has been
    moved, and the exception leaves [organize_directory]: the run is
    aborted, though [source] exists and no entry failed. *)
Lemma traversal_failure_escapes :
  FS.path_exists (deny_next 2) twins_tree ["src"] = Ok true ∧
  organize_directory (deny_next 2) ["src"] false false twins_items twins_tree
  = (<[ ["src"; "Documents"; "x.txt"] := FS.File ]>
       (<[ ["src"; "Documents"] := FS.Dir ]> (delete ["src"; "a"; "x.txt"] twins_tree)),
     Raise (Exn OtherException "maximum recursion depth exceeded")).
Proof. split; compute_done. Qed.

(** C4 (amended).  A run returns [None] when [source] does not exist.  When
    it exists and the traversal itself does not fail, the run returns a
    result, never an exception: whenever the body of the loop raises on an
    entry, the entry is paired with the description of the exception in
    [errors], where it stays until the end of the run, and the entries after
    it are processed from the state so obtained.  Two exceptions are not
    handled and abort the run: one raised by the existence test of [source],
    before anything is done, and one raised by advancing the traversal,
    after the entries yielded so far have been processed. *)
Theorem only_precondition_aborts (faults : FS.call → option exn) (source : path)
    (dry_run include_hidden : bool) (items : list path) (t : FS.tree) :
  let step := process_item faults source dry_run include_hidden in
  (FS.path_exists faults t source = Ok false →
   organize_directory faults source dry_run include_hidden items t = (t, Ok None)) ∧
  (FS.path_exists faults t source = Ok true →
   (∀ j, (j ≤ length items)%nat → faults (FS.Next j) = None) →
   ∃ st,
     organize_directory faults source dry_run include_hidden items t
     = (fs st, Ok (Some (report st))) ∧
     ∀ before item after st1 e,
       items = before ++ item :: after →
       loop_body faults source dry_run include_hidden item
         (foldl step (initial t) before) = (st1, Raise e) →
       st = foldl step (append_errors (item, exn_str e) st1) after ∧
       (item, exn_str e) ∈ r_errors (report st)) ∧
  (∀ e, FS.path_exists faults t source = Raise e →
   organize_directory faults source dry_run include_hidden items t = (t, Raise e)) ∧
  (FS.path_exists faults t source = Ok true →
   ∀ n e, (n ≤ length items)%nat →
     (∀ j, (j < n)%nat → faults (FS.Next j) = None) →
     faults (FS.Next n) = Some e →
     organize_directory faults source dry_run include_hidden items t
     = (fs (foldl step (initial t) (take n items)), Raise e)).
Proof.
  intros step. split_and!.
  - intros H. unfold organize_directory. by rewrite H.
  - intros H Hnext. exists (foldl step (initial t) items). split.
    + by apply organize_directory_total.
    + intros before item after st1 e -> Hraise.
      assert (step (foldl step (initial t) before) item
              = append_errors (item, exn_str e) st1) as Hstep
        by by apply process_item_raise.
      rewrite foldl_app. cbn [foldl]. rewrite Hstep.
      split; [done|]. cbn [report r_errors].
      eapply elem_of_prefix;
        [|apply (run_errors faults source dry_run include_hidden _ after)].
      cbn. apply elem_of_app. right. by apply list_elem_of_singleton.
  - intros e H. unfold organize_directory. by rewrite H.
  - intros H n e Hn Hbefore Hat. unfold organize_directory. rewrite H.
    destruct (for_loop _ _ _ _ _ _ _) as [st [u|e']] eqn:E.
    + apply for_loop_Ok in E as [_ Hall]. rewrite Hall in Hat by lia. done.
    + apply for_loop_Raise in E as (m & Hm & He & Hall & ->). cbn in He, Hall.
      assert (m = n) as ->.
      { destruct (Nat.lt_trichotomy m n) as [?|[?|?]]; [|done|].
        - rewrite Hbefore in He by done. done.
        - rewrite Hall in Hat by done. done. }
      by simplify_eq.
Qed.

(** ** The summary *)

(** C10.  In a returned result the summary counts are the lengths of the
    result lists. *)
Theorem summary_counts_are_lengths (faults : FS.call → option exn) (source : path)
    (dry_run include_hidden : bool) (items : list path) (t t' : FS.tree)
    (r : run_result) :
  organize_directory faults source dry_run include_hidden items t = (t', Ok (Some r)) →
  moved_count (r_summary r) = length (r_moved r) ∧
  errors_count (r_summary r) = length (r_errors r) ∧
  skipped_count (r_summary r) = length (r_skipped r).
Proof.
  by intros (_ & -> & ->)%organize_directory_Some.
Qed.

(** ** File-system calls *)

Section FSFacts.
Variable faults : FS.call → option exn.
Implicit Types (t : FS.tree) (p q src dst : path) (n : FS.node).

Lemma guarded_Ok {A} c (r : result A) a :
  FS.guarded faults c r = Ok a → r = Ok a.
Proof. unfold FS.guarded. by destruct (faults c). Qed.

Lemma node_at_lookup t p : p ≠ [] → FS.node_at t p = t !! p.
Proof. by destruct p. Qed.

(** Creating directories keeps every entry and only adds directories on
    the way to the requested one. *)
Lemma mkdir_go_lookup t done todo t' q :
  FS.mkdir_go t done todo = Ok t' →
  t' !! q = t !! q ∨
  (t !! q = None ∧ t' !! q = Some FS.Dir ∧ q `prefix_of` (done ++ todo)).
Proof.
  revert t done. induction todo as [|c todo IH]; intros t done; cbn [FS.mkdir_go].
  { intros [= ->]. by left. }
  rewrite node_at_joinpath.
  assert (done ++ c :: todo = (done // c) ++ todo) as ->
    by (unfold PurePath.joinpath; by rewrite <-app_assoc).
  destruct (t !! (done // c)) as [[| |d]|] eqn:E; [done| |done|].
  - apply IH.
  - intros H. destruct (IH _ _ H) as [Hq|(Hq & Hd & Hp)].
    + destruct (decide (q = done // c)) as [->|Hne].
      * right. rewrite Hq, lookup_insert_eq. split_and!; [done..|].
        by apply prefix_app_r.
      * left. by rewrite Hq, lookup_insert_ne.
    + right. split_and!; [|done..].
      destruct (decide (q = done // c)) as [->|Hne]; [done|].
      by rewrite lookup_insert_ne in Hq.
Qed.

Lemma mkdir_lookup t p t' q :
  FS.mkdir faults t p = Ok t' →
  t' !! q = t !! q ∨ (t !! q = None ∧ t' !! q = Some FS.Dir ∧ q `prefix_of` p).
Proof. intros H%guarded_Ok. by apply (mkdir_go_lookup t [] p). Qed.

Lemma mkdir_node_at t p t' q n :
  FS.mkdir faults t p = Ok t' → FS.node_at t q = Some n → FS.node_at t' q = Some n.
Proof.
  intros H. destruct q as [|c q]; [done|]. cbn.
  destruct (mkdir_lookup _ _ _ (c :: q) H) as [->|(-> & _)]; done.
Qed.

Lemma mkdir_exists_in t p t' q :
  FS.mkdir faults t p = Ok t' → FS.exists_in t q = true → FS.exists_in t' q = true.
Proof.
  intros H. unfold FS.exists_in.
  destruct (FS.node_at t q) as [n|] eqn:E; [|done].
  by rewrite (mkdir_node_at _ _ _ _ _ H E).
Qed.

(** Entries that are not on the way to the created directory are as
    before. *)
Lemma mkdir_node_at_other t p t' q :
  FS.mkdir faults t p = Ok t' → ¬ q `prefix_of` p → FS.node_at t' q = FS.node_at t q.
Proof.
  intros H Hq. destruct q as [|c q]; [done|]. cbn.
  destruct (mkdir_lookup _ _ _ (c :: q) H) as [->|(_ & _ & ?)]; done.
Qed.

Lemma not_prefix_joinpath p s : ¬ (p // s) `prefix_of` p.
Proof.
  intros [k Hk]. apply (f_equal length) in Hk.
  unfold PurePath.joinpath in Hk. rewrite !length_app in Hk. cbn in Hk. lia.
Qed.

(** A successful move of something that is not a directory puts it at the
    destination and removes it from where it was. *)
Lemma move_in_Ok t src dst t' :
  FS.move_in t src dst = Ok t' →
  FS.exists_in t dst = false →
  FS.node_at t src ≠ Some FS.Dir →
  ∃ n, FS.node_at t src = Some n ∧ t' = <[dst := n]> (delete src t).
Proof.
  unfold FS.move_in. intros H Hfree Hnd.
  assert (FS.is_dir_in t dst = false) as Hd.
  { unfold FS.is_dir_in, FS.exists_in in *. by repeat case_match. }
  rewrite Hd in H. cbn [andb] in H.
  destruct (FS.node_at t src) as [[| |d]|]; [|done| |done];
    case_match; simplify_eq; eauto.
Qed.

Lemma move_in_dir_into_itself t src dst :
  FS.node_at t src = Some FS.Dir → src `prefix_of` dst →
  FS.exists_in t dst = false →
  ∃ e, FS.move_in t src dst = Raise e.
Proof.
  unfold FS.move_in. intros Hs Hp Hfree.
  assert (FS.is_dir_in t dst = false) as Hd.
  { unfold FS.is_dir_in, FS.exists_in in *. by repeat case_match. }
  rewrite Hd, Hs. cbn [andb]. rewrite bool_decide_true by done. eauto.
Qed.

(** How [shutil.move] ends: well, with the entry moved; or with an
    exception, having changed nothing or having left a copy at the
    destination beside the source. *)
Lemma move_Ok t src dst t' u :
  FS.move faults t src dst = (t', Ok u) → FS.move_in t src dst = Ok t'.
Proof.
  unfold FS.move. destruct (faults (FS.Move src dst)); [done|].
  destruct (FS.move_in t src dst) as [t2|e]; [|done].
  destruct (faults (FS.Unlink src)); [done|]. by intros [= <- _].
Qed.

Lemma move_Raise t src dst t' e :
  FS.move faults t src dst = (t', Raise e) →
  t' = t ∨
  ∃ t2, FS.move_in t src dst = Ok t2 ∧ faults (FS.Unlink src) = Some e ∧ t' = t2 ∪ t.
Proof.
  unfold FS.move. destruct (faults (FS.Move src dst)); [intros [= <- _]; by left|].
  destruct (FS.move_in t src dst) as [t2|e']; [|intros [= <- _]; by left].
  destruct (faults (FS.Unlink src)) as [e'|] eqn:E; [|done].
  intros [= <- <-]. right. by exists t2.
Qed.

(** The copy of an entry that is still at its old path. *)
Lemma union_moved t src dst n :
  t !! src = Some n → <[dst := n]> (delete src t) ∪ t = <[dst := n]> t.
Proof.
  intros Hsrc. apply map_eq. intros q.
  destruct (decide (q = dst)) as [->|Hd].
  { rewrite lookup_insert_eq. apply lookup_union_Some_l. by rewrite lookup_insert_eq. }
  rewrite lookup_insert_ne by done.
  destruct (decide (q = src)) as [->|Hs].
  { rewrite lookup_union_r; [done|]. by rewrite lookup_insert_ne, lookup_delete_eq. }
  destruct (t !! q) as [m|] eqn:E.
  - apply lookup_union_Some_l. by rewrite lookup_insert_ne, lookup_delete_ne.
  - apply lookup_union_None. by rewrite lookup_insert_ne, lookup_delete_ne.
Qed.

End FSFacts.

(** ** Dry runs and live runs *)

Section DryAndLive.
Local Open Scope nat_scope.
Variable faults : FS.call → option exn.
Variables (source : path) (include_hidden : bool).
Implicit Types (t : FS.tree) (item p target : path) (st : state).

Lemma loop_body_finish dry_run item :
  loop_body faults source dry_run include_hidden item =
  let* d := inspect (λ t, FS.is_dir faults t item) in
  if d then ret tt else
  let* l := inspect (λ t, FS.is_symlink faults t item) in
  if l then ret tt else
  if negb include_hidden && Str.startswith "." (PurePath.name item) then
    modify (append_skipped item)
  else
    let* _ := modify incr_total_files in
    let* present :=
      inspect (λ t, FS.path_exists faults t (source // category_of item)) in
    let* _ :=
      when (negb present)
        (when (negb dry_run)
           (mutate (λ t, FS.mkdir faults t (source // category_of item)))) in
    finish faults dry_run item (source // category_of item // PurePath.name item).
Proof. reflexivity. Qed.

Lemma path_exists_ext t1 t2 p :
  FS.exists_in t1 p = FS.exists_in t2 p →
  FS.path_exists faults t1 p = FS.path_exists faults t2 p.
Proof. unfold FS.path_exists. by intros ->. Qed.

(** The chosen destination only depends on which siblings of the
    candidate exist. *)
Lemma conflict_free_ext target st1 st2 :
  (∀ p, PurePath.parent p = PurePath.parent target →
        FS.exists_in (fs st1) p = FS.exists_in (fs st2) p) →
  (conflict_free faults target st1).2 = (conflict_free faults target st2).2.
Proof.
  intros Hext. unfold conflict_free, bind, inspect.
  rewrite (path_exists_ext (fs st1) (fs st2) target) by by apply Hext.
  destruct (FS.path_exists faults (fs st2) target) as [[|]|e]; [|done..].
  unfold resolve_conflict, inspect. cbn [snd].
  destruct (resolve_conflict_fuel faults (fs st1) target) as (k1 & Hk1 & Hall1 & Hstop1 & ->).
  destruct (resolve_conflict_fuel faults (fs st2) target) as (k2 & Hk2 & Hall2 & Hstop2 & ->).
  assert (∀ j, FS.path_exists faults (fs st1) (numbered target j)
               = FS.path_exists faults (fs st2) (numbered target j)) as Hsame.
  { intros j. apply path_exists_ext, Hext, numbered_parent. }
  assert (k1 = k2) as ->.
  { destruct (Nat.lt_trichotomy k1 k2) as [Hlt|[->|Hgt]]; [|done|].
    - destruct Hstop1. rewrite Hsame. apply Hall2. lia.
    - destruct Hstop2. rewrite <-Hsame. apply Hall1. lia. }
  unfold loop_outcome. by rewrite Hsame.
Qed.

Lemma conflict_free_fst target st : (conflict_free faults target st).1 = st.
Proof.
  destruct (conflict_free faults target st) as [st' r] eqn:E.
  by apply conflict_free_state in E.
Qed.

Lemma is_same_file_eq a b st :
  is_same_file faults a b st = (st, Ok (same_resolved faults a b)).
Proof.
  unfold is_same_file, same_resolved, inspect, FS.resolve, FS.guarded.
  repeat case_match; by simplify_eq.
Qed.

(** In a dry run, the rest of the body records the move it plans. *)
Lemma finish_dry item target_path st :
  finish faults true item target_path st =
  match is_same_file faults item target_path st with
  | (_, Ok true) => (st, Ok tt)
  | _ =>
      match (conflict_free faults target_path st).2 with
      | Ok dest => (append_moved (item, dest) st, Ok tt)
      | Raise e => (st, Raise e)
      end
  end.
Proof.
  unfold finish, bind. rewrite is_same_file_eq.
  destruct (same_resolved faults item target_path); [done|].
  destruct (conflict_free faults target_path st) as [st' [dest|e]] eqn:E;
    apply conflict_free_state in E as ->; done.
Qed.

(** In a live run, it records the move when [shutil.move] succeeds. *)
Lemma finish_live item target_path st :
  finish faults false item target_path st =
  match is_same_file faults item target_path st with
  | (_, Ok true) => (st, Ok tt)
  | _ =>
      match (conflict_free faults target_path st).2 with
      | Ok dest =>
          match FS.move faults (fs st) item dest with
          | (t', Ok _) => (append_moved (item, dest) (set_fs t' st), Ok tt)
          | (t', Raise e) => (set_fs t' st, Raise e)
          end
      | Raise e => (st, Raise e)
      end
  end.
Proof.
  unfold finish, bind. rewrite is_same_file_eq.
  destruct (same_resolved faults item target_path); [done|].
  destruct (conflict_free faults target_path st) as [st' [dest|e]] eqn:E;
    apply conflict_free_state in E as ->; [|done].
  cbn. unfold act. by destruct (FS.move faults (fs st) item dest) as [t' [[]|e]].
Qed.

Lemma process_item_settle dry_run st item :
  process_item faults source dry_run include_hidden st item
  = settle item (loop_body faults source dry_run include_hidden item st).
Proof. unfold process_item, settle. by destruct (loop_body _ _ _ _ _ _) as [? []]. Qed.

Lemma except_clauses_eq item e st :
  except_clauses item e st = append_errors (item, exn_str e) st.
Proof. unfold except_clauses. by destruct (exn_class_of e). Qed.

Lemma parent_name p : p ≠ [] → p = PurePath.parent p // PurePath.name p.
Proof.
  intros Hp. destruct (exists_last Hp) as (q & s & ->).
  change (q ++ [s]) with (q // s). by rewrite parent_joinpath, name_joinpath.
Qed.

End DryAndLive.

(** C2, as stated, fails: the file [Other] has no extension, so its category
    directory is [src/Other], which exists (it is the file itself).  The dry
    run records the move to [src/Other/Other]; the live run attempts it,
    [shutil.move] fails because [src/Other] is not a directory, and an error
    is recorded instead.  The counts differ. *)
Lemma dry_run_counts_differ :
  FS.well_formed other_tree = true ∧
  organize_directory FS.no_faults ["src"] true false [["src"; "Other"]] other_tree
  = (other_tree,
     Ok (Some (RunResult [(["src"; "Other"], ["src"; "Other"; "Other"])] [] []
                 (Summary 1 1 0 0)))) ∧
  organize_directory FS.no_faults ["src"] false false [["src"; "Other"]] other_tree
  = (other_tree,
     Ok (Some (RunResult []
                 [(["src"; "Other"], "No such file or directory, or not a directory")]
                 [] (Summary 1 0 1 0)))).
Proof. split_and!; compute_done. Qed.

Section DryRunPreview.
Variable faults : FS.call → option exn.
Variables (source : path) (include_hidden : bool).

Lemma process_item_dry_fs st item :
  fs (process_item faults source true include_hidden st item) = fs st.
Proof.
  destruct (loop_body faults source true include_hidden item st) as [st' r] eqn:E.
  assert (fs st' = fs st) as Hfs.
  { unfold loop_body in E. cbv zeta in E. inv_step;
      repeat match goal with
        | H : is_same_file _ _ _ _ = _ |- _ => apply is_same_file_inv in H as [-> _]
        | H : conflict_free _ _ _ = _ |- _ => apply conflict_free_state in H as ->
        end; done. }
  destruct r.
  - by rewrite (process_item_Ok _ _ _ _ _ _ _ _ E).
  - by rewrite (process_item_raise _ _ _ _ _ _ _ _ E).
Qed.

Lemma run_dry_fs st items :
  fs (foldl (process_item faults source true include_hidden) st items) = fs st.
Proof.
  revert st. induction items as [|item items IH]; intros st; [done|].
  cbn [foldl]. by rewrite IH, process_item_dry_fs.
Qed.

(** The planned and the performed end of an iteration agree, unless
    [shutil.move] fails on the planned destination. *)
Lemma finish_dry_live st1 st2 item target_dir :
  moved st2 = moved st1 → errors st2 = errors st1 →
  skipped st2 = skipped st1 → total_files st2 = total_files st1 →
  (∀ p, PurePath.parent p = target_dir →
        FS.exists_in (fs st2) p = FS.exists_in (fs st1) p) →
  let d := settle item (finish faults true item (target_dir // PurePath.name item) st1) in
  let l := settle item (finish faults false item (target_dir // PurePath.name item) st2) in
  total_files l = total_files d ∧ skipped l = skipped d ∧
  ((moved l = moved d ∧ errors l = errors d) ∨
   ∃ e t2 dest,
     FS.move faults (fs st2) item dest = (t2, Raise e) ∧
     moved d = moved st1 ++ [(item, dest)] ∧ errors d = errors st1 ∧
     moved l = moved st1 ∧ errors l = errors st1 ++ [(item, exn_str e)] ∧
     fs l = t2).
Proof.
  intros Hm He Hs Ht Hext d l. subst d l.
  rewrite finish_dry, finish_live, !is_same_file_eq.
  destruct (same_resolved faults item _); [unfold settle; cbn; by auto|].
  rewrite (conflict_free_ext faults _ st2 st1)
    by (intros p; rewrite parent_joinpath; apply Hext).
  destruct (conflict_free faults _ st1).2 as [dest|e].
  - destruct (FS.move faults (fs st2) item dest) as [t' [[]|e]] eqn:Emove;
      unfold settle; cbn; rewrite ?except_clauses_eq; cbn.
    + split_and!; [done..|]. left. by rewrite Hm, He.
    + split_and!; [done..|]. right. exists e, t', dest. by rewrite Hm, He.
  - unfold settle; cbn; rewrite !except_clauses_eq; cbn.
    split_and!; [done..|]. left. by rewrite Hm, He.
Qed.

Lemma process_item_dry_live st item :
  let d := process_item faults source true include_hidden st item in
  let l := process_item faults source false include_hidden st item in
  let target_dir := source // category_of item in
  total_files l = total_files d ∧ skipped l = skipped d ∧
  ((moved l = moved d ∧ errors l = errors d) ∨
   (∃ e, FS.path_exists faults (fs st) target_dir = Ok false ∧
         FS.mkdir faults (fs st) target_dir = Raise e ∧
         d = settle item
               (finish faults true item (target_dir // PurePath.name item)
                  (incr_total_files st)) ∧
         moved l = moved st ∧ errors l = errors st ++ [(item, exn_str e)] ∧
         fs l = fs st) ∨
   (∃ e t1 t2 dest,
         (FS.path_exists faults (fs st) target_dir = Ok true ∧ t1 = fs st ∨
          FS.path_exists faults (fs st) target_dir = Ok false ∧
          FS.mkdir faults (fs st) target_dir = Ok t1) ∧
         FS.move faults t1 item dest = (t2, Raise e) ∧
         moved d = moved st ++ [(item, dest)] ∧ errors d = errors st ∧
         moved l = moved st ∧ errors l = errors st ++ [(item, exn_str e)] ∧
         fs l = t2)).
Proof.
  intros d l target_dir. subst d l target_dir.
  rewrite !process_item_settle, !loop_body_finish.
  unfold bind, inspect, modify, ret.
  destruct (FS.is_dir faults (fs st) item) as [[|]|e0]; [by auto| |by auto].
  destruct (FS.is_symlink faults (fs st) item) as [[|]|e0]; [by auto| |by auto].
  destruct (negb include_hidden && _); [by auto|].
  change (fs (incr_total_files st)) with (fs st).
  destruct (FS.path_exists faults (fs st) (source // category_of item))
    as [[|]|e0]; [| |by auto].
  - (* the target directory exists *)
    cbn [negb when ret].
    destruct (finish_dry_live (incr_total_files st) (incr_total_files st) item
                (source // category_of item))
      as (? & ? & [?|(e & t2 & dest & ? & ? & ? & ? & ? & ?)]);
      try done; split_and!; [done|done|by left|done|done|].
    right; right. exists e, (fs st), t2, dest. split_and!; auto.
  - (* it does not: the live run creates it *)
    cbn [negb when ret]. unfold mutate. change (fs (incr_total_files st)) with (fs st).
    destruct (FS.mkdir faults (fs st) (source // category_of item)) as [t'|e] eqn:Emk.
    + destruct (finish_dry_live (incr_total_files st) (set_fs t' (incr_total_files st))
                  item (source // category_of item))
        as (? & ? & [?|(e & t2 & dest & ? & ? & ? & ? & ? & ?)]);
        try done.
      * intros p Hp. unfold FS.exists_in. cbn [fs set_fs incr_total_files].
        rewrite (mkdir_node_at_other faults _ _ _ p Emk); [done|].
        assert (p ≠ []) as Hne by (intros ->; by destruct source).
        rewrite (parent_name p Hne), Hp. apply not_prefix_joinpath.
      * split_and!; [done|done|by left].
      * split_and!; [done|done|]. right; right. exists e, t', t2, dest.
        split_and!; auto.
    + split_and!.
      * rewrite finish_dry, is_same_file_eq.
        destruct (same_resolved faults item _);
          [|destruct (conflict_free faults _ _).2];
          unfold settle; cbn; by rewrite ?except_clauses_eq.
      * rewrite finish_dry, is_same_file_eq.
        destruct (same_resolved faults item _);
          [|destruct (conflict_free faults _ _).2];
          unfold settle; cbn; by rewrite ?except_clauses_eq.
      * right; left. exists e. unfold settle at 2. cbn. rewrite except_clauses_eq.
        by split_and!.
Qed.

End DryRunPreview.

(** C2 (amended).  A dry run leaves the file system as it found it.  Its
    counts are those of a live run only step by step and up to failures of
    the changes it does not make: started from the same state, a dry and a
    live iteration on an entry update [total_files] and [skipped] alike and
    record the same move or the same error, with two exceptions.  When the
    target directory is missing and the live iteration fails in creating it,
    the live iteration records an error for the entry, where the dry one
    does the rest of the body on the tree as it is.  When [shutil.move]
    fails on the tree the live iteration has prepared and at the
    destination chosen there, the live iteration records an error for the
    entry and keeps the tree the failed call has left, where the dry one
    records the move to that destination. *)
Theorem dry_run_preview (faults : FS.call → option exn) (source : path)
    (include_hidden : bool) :
  (∀ items t,
     (organize_directory faults source true include_hidden items t).1 = t) ∧
  (∀ st item,
     let d := process_item faults source true include_hidden st item in
     let l := process_item faults source false include_hidden st item in
     let target_dir := source // category_of item in
     fs d = fs st ∧
     total_files l = total_files d ∧ skipped l = skipped d ∧
     ((moved l = moved d ∧ errors l = errors d) ∨
      (∃ e, FS.path_exists faults (fs st) target_dir = Ok false ∧
            FS.mkdir faults (fs st) target_dir = Raise e ∧
            d = settle item
                  (finish faults true item (target_dir // PurePath.name item)
                     (incr_total_files st)) ∧
            moved l = moved st ∧ errors l = errors st ++ [(item, exn_str e)] ∧
            fs l = fs st) ∨
      (∃ e t1 t2 dest,
            (FS.path_exists faults (fs st) target_dir = Ok true ∧ t1 = fs st ∨
             FS.path_exists faults (fs st) target_dir = Ok false ∧
             FS.mkdir faults (fs st) target_dir = Ok t1) ∧
            FS.move faults t1 item dest = (t2, Raise e) ∧
            moved d = moved st ++ [(item, dest)] ∧ errors d = errors st ∧
            moved l = moved st ∧ errors l = errors st ++ [(item, exn_str e)] ∧
            fs l = t2))).
Proof.
  split.
  - intros items t. unfold organize_directory.
    destruct (FS.path_exists faults t source) as [[|]|e]; [|done..].
    destruct (for_loop _ _ _ _ _ _ _) as [st [u|e]] eqn:E; cbn [fst].
    + apply for_loop_Ok in E as [-> _]. apply run_dry_fs.
    + apply for_loop_Raise in E as (n & _ & _ & _ & ->). apply run_dry_fs.
  - intros st item d l target_dir. split; [apply process_item_dry_fs|].
    apply process_item_dry_live.
Qed.

(** ** Destinations within one run *)

(** C1, as stated, fails in a dry run: the existence test of line 116 looks
    at the file system only, nothing is moved, and both files are recorded
    with the destination [src/Documents/x.txt]. *)
Lemma dry_run_reuses_destination :
  FS.well_formed twins_tree = true ∧
  organize_directory FS.no_faults ["src"] true false twins_items twins_tree
  = (twins_tree,
     Ok (Some (RunResult
                 [ (["src"; "a"; "x.txt"], ["src"; "Documents"; "x.txt"]);
                   (["src"; "b"; "x.txt"], ["src"; "Documents"; "x.txt"]) ]
                 [] [] (Summary 2 2 0 0)))).
Proof. split; compute_done. Qed.

(** The same entries in a live run: the second file meets the first at the
    destination and is numbered. *)
Example live_run_numbers_second :
  (organize_directory FS.no_faults ["src"] false false twins_items twins_tree).2
  = Ok (Some (RunResult
                [ (["src"; "a"; "x.txt"], ["src"; "Documents"; "x.txt"]);
                  (["src"; "b"; "x.txt"], ["src"; "Documents"; "x (1).txt"]) ]
                [] [] (Summary 2 2 0 0))).
Proof. compute_done. Qed.

Section LiveDestinations.
Variable faults : FS.call → option exn.
Variables (source : path) (include_hidden : bool).
Hypothesis resolve_total : ∀ p, faults (FS.Resolve p) = None.
Implicit Types (t : FS.tree) (item d dest : path) (st : state)
  (mv : list (path * path)).

Lemma in_place_candidate item :
  in_place source (source // category_of item // PurePath.name item).
Proof. unfold in_place. by rewrite category_of_joinpath, name_joinpath. Qed.

Lemma in_place_numbered item k :
  in_place source (numbered (source // category_of item // PurePath.name item) k).
Proof.
  unfold in_place. rewrite category_of_numbered, category_of_joinpath.
  unfold numbered at 1. rewrite parent_joinpath. unfold numbered.
  by rewrite name_joinpath.
Qed.

Lemma dests_ok_mkdir t t' p mv :
  FS.mkdir faults t p = Ok t' → dests_ok source t mv → dests_ok source t' mv.
Proof.
  intros Hmk [Hnd Hin]. split; [done|]. intros d Hd.
  destruct (Hin d Hd) as [Hex Hp]. split; [|done].
  by eapply mkdir_exists_in.
Qed.

Lemma same_resolved_eq a b : same_resolved faults a b = bool_decide (a = b).
Proof. unfold same_resolved. by rewrite !resolve_total. Qed.

(** The end of a live iteration keeps the invariant: a successful move
    takes a regular file that is not in place to a path that was free. *)
Lemma finish_live_dests t0 st item :
  dests_ok source (fs st) (moved st) →
  FS.is_dir_in t0 item = false →
  FS.is_symlink_in t0 item = false →
  fs st = t0 ∨ FS.mkdir faults t0 (source // category_of item) = Ok (fs st) →
  let st' := settle item
               (finish faults false item
                  (source // category_of item // PurePath.name item) st) in
  dests_ok source (fs st') (moved st').
Proof.
  intros Hok Hdir Hlink Hfs st'. subst st'.
  set (target_dir := source // category_of item) in *.
  set (target_path := target_dir // PurePath.name item).
  rewrite finish_live, is_same_file_eq, same_resolved_eq.
  case_bool_decide as Hsame; [done|].
  destruct (conflict_free faults target_path st) as [st1 [dest|e]] eqn:Ecf;
    [|by unfold settle; cbn; rewrite except_clauses_eq].
  apply conflict_free_inv in Ecf as (-> & Hfree & Hdest). cbn [snd].
  assert (PurePath.parent dest = target_dir) as Hparent.
  { destruct Hdest as [->|(k & _ & ->)]; rewrite ?numbered_parent;
      apply parent_joinpath. }
  assert (dest ≠ []) as Hdne.
  { destruct Hdest as [->|(k & _ & ->)]; apply joinpath_not_root. }
  assert (item ≠ []) as Hine by (intros ->; done).
  assert (in_place source dest) as Hplace.
  { destruct Hdest as [->|(k & _ & ->)];
      [apply in_place_candidate|apply in_place_numbered]. }
  (* what is moved, or copied, is a regular file *)
  assert (∀ t2, FS.move_in (fs st) item dest = Ok t2 →
                FS.node_at (fs st) item = Some FS.File ∧
                t2 = <[dest := FS.File]> (delete item (fs st))) as Hmoved.
  { intros t2 Emv.
    assert (FS.node_at (fs st) item = FS.node_at t0 item ∨
            (FS.node_at (fs st) item = Some FS.Dir ∧ item `prefix_of` dest)) as Hnode.
    { destruct Hfs as [->|Hmk]; [by left|].
      rewrite !node_at_lookup by done.
      destruct (mkdir_lookup faults _ _ _ item Hmk) as [?|(_ & ? & Hpre)]; [by left|].
      right. split; [done|]. etrans; [done|].
      rewrite (parent_name dest Hdne), Hparent. by apply prefix_app_r. }
    assert (FS.node_at (fs st) item ≠ Some FS.Dir) as Hnd.
    { intros Hd. destruct Hnode as [Heq|[_ Hpre]].
      - unfold FS.is_dir_in in Hdir. by rewrite <-Heq, Hd in Hdir.
      - destruct (move_in_dir_into_itself _ _ _ Hd Hpre Hfree) as [e He].
        by rewrite He in Emv. }
    destruct (move_in_Ok _ _ _ _ Emv Hfree Hnd) as (n & Hn & ->).
    assert (n = FS.File) as ->; [|done].
    destruct Hnode as [Heq|[? _]]; [|done]. rewrite Hn in Heq.
    unfold FS.is_dir_in, FS.is_symlink_in in *. rewrite <-Heq in *.
    by destruct n. }
  destruct Hok as [Hnodup Hin].
  destruct (FS.move faults (fs st) item dest) as [t2 [[]|e]] eqn:Emv;
    unfold settle; cbn; rewrite ?except_clauses_eq; cbn.
  2:{ (* a failed move keeps the recorded destinations *)
    split; [done|]. intros d Hd. destruct (Hin d Hd) as [Hex Hp]. split; [|done].
    apply move_Raise in Emv as [->|(t3 & Emv & _ & ->)]; [done|].
    destruct (Hmoved _ Emv) as [Hitem ->].
    rewrite node_at_lookup in Hitem by done. rewrite (union_moved _ _ _ _ Hitem).
    assert (d ≠ dest) by (intros ->; by rewrite Hfree in Hex).
    assert (d ≠ []) by (intros ->; by eapply joinpath_not_root).
    unfold FS.exists_in in *. rewrite !node_at_lookup in * by done.
    by rewrite lookup_insert_ne. }
  apply move_Ok in Emv. destruct (Hmoved _ Emv) as [_ ->].
  split.
  - rewrite fmap_app. cbn [fmap list_fmap snd]. apply NoDup_app. split_and!; [done| |apply NoDup_singleton].
    intros d Hd ->%list_elem_of_singleton.
    destruct (Hin _ Hd) as [Hex _]. by rewrite Hfree in Hex.
  - intros d. rewrite fmap_app. cbn [fmap list_fmap snd].
    rewrite elem_of_app, list_elem_of_singleton.
    intros [Hd| ->].
    + destruct (Hin _ Hd) as [Hex Hp]. split; [|done].
      assert (d ≠ dest) by (intros ->; by rewrite Hfree in Hex).
      assert (d ≠ item).
      { intros ->. apply Hsame. unfold target_path, target_dir. apply Hp. }
      assert (d ≠ []) by (intros ->; by eapply joinpath_not_root).
      unfold FS.exists_in in *. rewrite !node_at_lookup in * by done.
      by rewrite lookup_insert_ne, lookup_delete_ne.
    + split; [|done]. unfold FS.exists_in.
      rewrite node_at_lookup by done. by rewrite lookup_insert_eq.
Qed.

Lemma process_item_live_dests st item :
  dests_ok source (fs st) (moved st) →
  let st' := process_item faults source false include_hidden st item in
  dests_ok source (fs st') (moved st').
Proof.
  intros Hok st'. subst st'.
  rewrite process_item_settle, loop_body_finish.
  unfold bind, inspect, modify, ret.
  destruct (FS.is_dir faults (fs st) item) as [[|]|e0] eqn:Ed;
    [done| |by unfold settle; cbn; rewrite except_clauses_eq].
  destruct (FS.is_symlink faults (fs st) item) as [[|]|e0] eqn:El;
    [done| |by unfold settle; cbn; rewrite except_clauses_eq].
  apply guarded_Ok in Ed, El. injection Ed as Ed. injection El as El.
  destruct (negb include_hidden && _); [done|].
  change (fs (incr_total_files st)) with (fs st).
  destruct (FS.path_exists faults (fs st) (source // category_of item))
    as [[|]|e0]; [| |by unfold settle; cbn; rewrite except_clauses_eq].
  - cbn [negb when ret].
    apply (finish_live_dests (fs st) (incr_total_files st)); auto.
  - cbn [negb when ret]. unfold mutate. change (fs (incr_total_files st)) with (fs st).
    destruct (FS.mkdir faults (fs st) (source // category_of item)) as [t'|e] eqn:Emk;
      [|by unfold settle; cbn; rewrite except_clauses_eq].
    apply (finish_live_dests (fs st) (set_fs t' (incr_total_files st))); auto.
    cbn. by eapply dests_ok_mkdir.
Qed.

Lemma run_live_dests st items :
  dests_ok source (fs st) (moved st) →
  let st' := foldl (process_item faults source false include_hidden) st items in
  dests_ok source (fs st') (moved st').
Proof.
  revert st. induction items as [|item items IH]; intros st Hok; [done|].
  cbn [foldl]. by apply IH, process_item_live_dests.
Qed.

End LiveDestinations.

(** C1 (amended).  In a live run in which path resolution does not fail, no
    destination is recorded twice: every recorded move has put its file at
    its destination, where it still is when the run ends, and the existence
    test that chooses a destination sees it there. *)
Theorem live_destinations_distinct (faults : FS.call → option exn) (source : path)
    (include_hidden : bool) (items : list path) (t t' : FS.tree) (r : run_result) :
  (∀ p, faults (FS.Resolve p) = None) →
  organize_directory faults source false include_hidden items t = (t', Ok (Some r)) →
  NoDup (r_moved r).*2 ∧
  ∀ d, d ∈ (r_moved r).*2 → FS.exists_in t' d = true.
Proof.
  intros Hres (_ & -> & ->)%organize_directory_Some. cbn [report r_moved].
  destruct (run_live_dests faults source include_hidden Hres (initial t) items)
    as [Hnd Hin].
  { split; [apply NoDup_nil_2|]. by intros d ?%elem_of_nil. }
  split; [done|]. intros d Hd. by destruct (Hin d Hd).
Qed.

(** A permission failure on the first file is recorded, and the second file
    is moved all the same. *)
Example permission_failure_is_recorded :
  (organize_directory (deny_move ["src"; "a"; "x.txt"]) ["src"] false false
     twins_items twins_tree).2
  = Ok (Some (RunResult
                [ (["src"; "b"; "x.txt"], ["src"; "Documents"; "x.txt"]) ]
                [ (["src"; "a"; "x.txt"], "Permission denied") ]
                [] (Summary 2 1 1 0))).
Proof. compute_done. Qed.

Lemma live_destinations_distinct_witness :
  NoDup twins_moved.*2 ∧
  ∀ d, d ∈ twins_moved.*2 → FS.exists_in twins_live.1 d = true.
Proof.
  apply (live_destinations_distinct FS.no_faults ["src"] false twins_items twins_tree
           twins_live.1 (RunResult twins_moved [] [] (Summary 2 2 0 0))).
  - reflexivity.
  - compute_done.
Defined.

Lemma summary_counts_are_lengths_witness :
  moved_count (Summary 2 2 0 0) = length twins_moved ∧
  errors_count (Summary 2 2 0 0) = length (@nil (path * string)) ∧
  skipped_count (Summary 2 2 0 0) = length (@nil path).
Proof.
  apply (summary_counts_are_lengths FS.no_faults ["src"] false false twins_items
           twins_tree twins_live.1 (RunResult twins_moved [] [] (Summary 2 2 0 0))).
  compute_done.
Defined.

(** ** Files already in place *)

(** A file in place is counted and otherwise left alone: nothing is moved,
    no destination is computed, and no list receives it. *)
Lemma in_place_step (faults : FS.call → option exn) (source : path)
    (dry_run include_hidden : bool) (st : state) (item : path) :
  FS.is_dir faults (fs st) item = Ok false →
  FS.is_symlink faults (fs st) item = Ok false →
  negb include_hidden && Str.startswith "." (PurePath.name item) = false →
  FS.path_exists faults (fs st) (source // category_of item) = Ok true →
  faults (FS.Resolve item) = None →
  item = source // category_of item // PurePath.name item →
  process_item faults source dry_run include_hidden st item = incr_total_files st.
Proof.
  intros Hd Hl Hh Hp Hr Hitem.
  rewrite process_item_settle, loop_body_finish.
  unfold bind, inspect, modify, ret. rewrite Hd, Hl, Hh.
  change (fs (incr_total_files st)) with (fs st). rewrite Hp.
  cbn [negb when ret]. unfold finish, bind. rewrite is_same_file_eq.
  unfold same_resolved. rewrite <-Hitem, Hr.
  by rewrite bool_decide_true.
Qed.

(** C3, on the code: the file [src/Documents/a.txt] is in place; the run
    counts it in [total_files_seen] and moves nothing, but it does not
    record it in [skipped], and [skipped_count] is 0. *)
Theorem in_place_file_not_recorded :
  ["src"; "Documents"; "a.txt"]
  = ["src"] // category_of ["src"; "Documents"; "a.txt"]
            // PurePath.name ["src"; "Documents"; "a.txt"] ∧
  organize_directory FS.no_faults ["src"] false false tidy_items tidy_tree
  = (tidy_tree, Ok (Some (RunResult [] [] [] (Summary 1 0 0 0)))).
Proof. split; compute_done. Qed.

(** * Further properties *)

(** ** The effect of one iteration *)

Section StepEffect.
Variable faults : FS.call → option exn.
Variables (source : path) (include_hidden : bool).
Implicit Types (t : FS.tree) (item d dest q : path) (st : state).

Lemma move_file_Ok t src dst t' :
  FS.move_in t src dst = Ok t' →
  FS.exists_in t dst = false →
  FS.node_at t src = Some FS.File →
  FS.is_dir_in t (PurePath.parent dst) = true ∧
  t' = <[dst := FS.File]> (delete src t).
Proof.
  unfold FS.move_in. intros H Hfree Hsrc.
  assert (FS.is_dir_in t dst = false) as Hd.
  { unfold FS.is_dir_in, FS.exists_in in *. by repeat case_match. }
  rewrite Hd, Hsrc in H. cbn [andb] in H.
  destruct (FS.is_dir_in t (PurePath.parent dst)); cbn in H; by simplify_eq.
Qed.

(** The end of a live iteration leaves the tree alone, or moves a regular
    file to a free variant of the candidate path, or fails in doing so
    with the copy written. *)
Lemma finish_live_effect t0 st item :
  FS.is_dir_in t0 item = false →
  FS.is_symlink_in t0 item = false →
  fs st = t0 ∨ FS.mkdir faults t0 (source // category_of item) = Ok (fs st) →
  let target_path := source // category_of item // PurePath.name item in
  let st' := settle item (finish faults false item target_path st) in
  (fs st' = fs st ∧ moved st' = moved st) ∨
  (∃ dest,
    moved st' = moved st ++ [(item, dest)] ∧ errors st' = errors st ∧
    variant_of target_path dest ∧
    same_resolved faults item target_path = false ∧
    FS.exists_in (fs st) dest = false ∧
    FS.node_at (fs st) item = Some FS.File ∧
    FS.is_dir_in (fs st) (PurePath.parent dest) = true ∧
    fs st' = <[dest := FS.File]> (delete item (fs st))) ∨
  (∃ dest e,
    moved st' = moved st ∧ errors st' = errors st ++ [(item, exn_str e)] ∧
    variant_of target_path dest ∧
    FS.exists_in (fs st) dest = false ∧
    FS.node_at (fs st) item = Some FS.File ∧
    faults (FS.Unlink item) = Some e ∧
    fs st' = <[dest := FS.File]> (fs st)).
Proof.
  intros Hdir Hlink Hfs target_path st'. subst st'.
  set (target_dir := source // category_of item) in *.
  rewrite finish_live, is_same_file_eq.
  destruct (same_resolved faults item target_path) eqn:Hsame; [by left|].
  destruct (conflict_free faults target_path st) as [st1 [dest|e]] eqn:Ecf;
    [|left; by unfold settle; cbn; rewrite except_clauses_eq].
  apply conflict_free_inv in Ecf as (-> & Hfree & Hdest). cbn [snd].
  assert (PurePath.parent dest = target_dir) as Hparent.
  { destruct Hdest as [->|(k & _ & ->)]; rewrite ?numbered_parent;
      apply parent_joinpath. }
  assert (dest ≠ []) as Hdne.
  { destruct Hdest as [->|(k & _ & ->)]; apply joinpath_not_root. }
  assert (item ≠ []) as Hine by (intros ->; done).
  assert (∀ t2, FS.move_in (fs st) item dest = Ok t2 →
                FS.node_at (fs st) item = Some FS.File ∧
                FS.is_dir_in (fs st) (PurePath.parent dest) = true ∧
                t2 = <[dest := FS.File]> (delete item (fs st))) as Hmoved.
  { intros t2 Emv.
    assert (FS.node_at (fs st) item = FS.node_at t0 item ∨
            (FS.node_at (fs st) item = Some FS.Dir ∧ item `prefix_of` dest)) as Hnode.
    { destruct Hfs as [->|Hmk]; [by left|].
      rewrite !node_at_lookup by done.
      destruct (mkdir_lookup faults _ _ _ item Hmk) as [?|(_ & ? & Hpre)]; [by left|].
      right. split; [done|]. etrans; [done|].
      rewrite (parent_name dest Hdne), Hparent. by apply prefix_app_r. }
    assert (FS.node_at (fs st) item ≠ Some FS.Dir) as Hnd.
    { intros Hd. destruct Hnode as [Heq|[_ Hpre]].
      - unfold FS.is_dir_in in Hdir. by rewrite <-Heq, Hd in Hdir.
      - destruct (move_in_dir_into_itself _ _ _ Hd Hpre Hfree) as [e He].
        by rewrite He in Emv. }
    destruct (move_in_Ok _ _ _ _ Emv Hfree Hnd) as (n & Hn & Ht2).
    assert (n = FS.File) as ->.
    { destruct Hnode as [Heq|[? _]]; [|done]. rewrite Hn in Heq.
      unfold FS.is_dir_in, FS.is_symlink_in in *. rewrite <-Heq in *.
      by destruct n. }
    destruct (move_file_Ok _ _ _ _ Emv Hfree Hn) as [Hpd _]. done. }
  destruct (FS.move faults (fs st) item dest) as [t2 [[]|e]] eqn:Emv;
    unfold settle; cbn; rewrite ?except_clauses_eq; cbn.
  - apply move_Ok in Emv. destruct (Hmoved _ Emv) as (? & ? & ->).
    right; left. exists dest. by split_and!.
  - apply move_Raise in Emv as [->|(t3 & Emv & Hun & ->)]; [by left|].
    destruct (Hmoved _ Emv) as (Hitem & _ & ->).
    right; right. exists dest, e. split_and!; [done..|].
    rewrite node_at_lookup in Hitem by done. by rewrite (union_moved _ _ _ _ Hitem).
Qed.

(** Every iteration has one of the three effects of [step_effect]. *)
Lemma process_item_effect dry_run st item :
  step_effect faults source dry_run st item
    (process_item faults source dry_run include_hidden st item).
Proof.
  assert (prepared faults source dry_run st item (fs st)) as Hsame by by left.
  rewrite process_item_settle, loop_body_finish.
  unfold bind, inspect, modify, ret.
  destruct (FS.is_dir faults (fs st) item) as [[|]|e0] eqn:Ed;
    [by eapply effect_no_move| |
     by eapply effect_no_move; [done|unfold settle; cbn; rewrite except_clauses_eq..]].
  destruct (FS.is_symlink faults (fs st) item) as [[|]|e0] eqn:El;
    [by eapply effect_no_move| |
     by eapply effect_no_move; [done|unfold settle; cbn; rewrite except_clauses_eq..]].
  apply guarded_Ok in Ed, El. injection Ed as Ed. injection El as El.
  destruct (negb include_hidden && _); [by eapply effect_no_move|].
  change (fs (incr_total_files st)) with (fs st).
  destruct (FS.path_exists faults (fs st) (source // category_of item))
    as [present|e0];
    [|by eapply effect_no_move; [done|unfold settle; cbn; rewrite except_clauses_eq..]].
  destruct dry_run.
  - (* dry run: the tree is never touched *)
    replace (when (negb present) (when (negb true) _) (incr_total_files st))
      with (incr_total_files st, @Ok unit tt) by by destruct present.
    rewrite finish_dry, is_same_file_eq.
    destruct (same_resolved faults item _) eqn:Hres; [by eapply effect_no_move|].
    destruct (conflict_free faults _ (incr_total_files st)) as [st1 [dest|e]] eqn:Ecf;
      [|by eapply effect_no_move; [done|unfold settle; cbn; rewrite except_clauses_eq..]].
    apply conflict_free_inv in Ecf as (-> & Hfree & Hdest).
    by eapply (effect_move _ _ _ _ _ _ (fs st) dest).
  - (* live run *)
    assert (∀ st1,
      fs st1 = fs st ∨ FS.mkdir faults (fs st) (source // category_of item) = Ok (fs st1) →
      moved st1 = moved st → errors st1 = errors st →
      step_effect faults source false st item
        (settle item
           (finish faults false item (source // category_of item // PurePath.name item) st1)))
      as Hfin.
    { intros st1 Hfs Hm He.
      assert (prepared faults source false st item (fs st1)) as Hprep.
      { destruct Hfs as [->|?]; [by left|by right]. }
      destruct (finish_live_effect (fs st) st1 item Ed El)
        as [[? ?]|[(dest & ?)|(dest & e & ?)]];
        [destruct Hfs; by eauto| | |].
      - eapply effect_no_move; [done..|congruence].
      - destruct_and!. eapply (effect_move _ _ _ _ _ _ (fs st1) dest); try done;
          congruence.
      - destruct_and!. eapply (effect_copy_left _ _ _ _ _ _ (fs st1) dest e); try done;
          congruence. }
    destruct present; cbn [negb when ret].
    + by apply Hfin; [left|..].
    + unfold mutate. change (fs (incr_total_files st)) with (fs st).
      destruct (FS.mkdir faults (fs st) (source // category_of item)) as [t'|e] eqn:Emk.
      * by apply Hfin; [right|..].
      * eapply effect_no_move; [done|unfold settle; cbn; by rewrite except_clauses_eq..].
Qed.

End StepEffect.

(** ** Records and counts of a run *)

Section Records.
Local Open Scope nat_scope.
Variable faults : FS.call → option exn.
Variables (source : path) (dry_run include_hidden : bool).
Implicit Types (t : FS.tree) (item p : path) (st : state) (items : list path).

(** One iteration appends at most one record, to one of the three lists,
    and only for the entry at hand; a move is recorded only for an entry
    that has been counted, and a skip only for a hidden name. *)
Lemma process_item_records st item :
  let st' := process_item faults source dry_run include_hidden st item in
  (st' = st ∧ True) ∨
  (st' = append_skipped item st ∧
   include_hidden = false ∧ Str.startswith "." (PurePath.name item) = true) ∨
  (∃ msg, st' = append_errors (item, msg) st ∧
          (∃ e, FS.is_dir faults (fs st) item = Raise e ∨
                FS.is_symlink faults (fs st) item = Raise e)) ∨
  (total_files st' = S (total_files st) ∧ skipped st' = skipped st ∧
   ((moved st' = moved st ∧ errors st' = errors st) ∨
    (∃ dest, moved st' = moved st ++ [(item, dest)] ∧ errors st' = errors st) ∨
    (∃ msg, moved st' = moved st ∧ errors st' = errors st ++ [(item, msg)]))).
Proof.
  intros st'. subst st'.
  destruct (loop_body faults source dry_run include_hidden item st) as [st1 r] eqn:E.
  pose proof (loop_body_cases _ _ _ _ _ _ _ _ E) as Hc.
  assert (process_item faults source dry_run include_hidden st item
          = match r with Ok _ => st1 | Raise e => append_errors (item, exn_str e) st1 end)
    as ->.
  { destruct r; [by eapply process_item_Ok|by apply process_item_raise]. }
  destruct (FS.is_dir faults (fs st) item) as [[|]|e0]; destruct_and?; simplify_eq.
  { by left. }
  2:{ right; right; left. eauto. }
  destruct (FS.is_symlink faults (fs st) item) as [[|]|e0]; destruct_and?; simplify_eq.
  { by left. }
  2:{ right; right; left. eauto. }
  destruct (negb include_hidden && _) eqn:Hh; destruct_and?; simplify_eq.
  { right; left. apply andb_prop in Hh as [?%negb_true_iff ?]. done. }
  right; right; right.
  match goal with H : moved _ = _ ∨ _ |- _ => destruct H as [Hm|(dest & Hm & _ & ->)] end.
  - destruct r as [u|e]; cbn; (split_and!; [done..|]).
    + by left.
    + right; right. exists (exn_str e). by rewrite H0.
  - cbn. split_and!; [done..|]. right; left. by eauto.
Qed.

(** The numbers behind the summary, for one iteration. *)
Lemma process_item_counts st item :
  let st' := process_item faults source dry_run include_hidden st item in
  length (moved st') + length (errors st') + length (skipped st')
    ≤ S (length (moved st) + length (errors st) + length (skipped st)) ∧
  total_files st' + length (skipped st') ≤ S (total_files st + length (skipped st)) ∧
  length (moved st') + total_files st ≤ total_files st' + length (moved st) ∧
  ((∀ p, faults (FS.IsDir p) = None ∧ faults (FS.IsSymlink p) = None) →
   length (moved st') + length (errors st') + total_files st
     ≤ total_files st' + length (moved st) + length (errors st)).
Proof.
  intros st'. subst st'.
  pose proof (process_item_records st item) as Hrec. cbv zeta in Hrec.
  destruct Hrec as [[Hst _]|[(Hst & _)|[(msg & Hst & Hf)|(Ht & Hs & Hr)]]].
  - rewrite Hst. split_and!; lia.
  - rewrite Hst. cbn. rewrite length_app. cbn. split_and!; lia.
  - rewrite Hst. cbn. rewrite length_app. cbn. split_and!; try lia.
    intros Hnf. destruct Hf as [e [Hf|Hf]].
    + unfold FS.is_dir, FS.guarded in Hf. by rewrite (proj1 (Hnf item)) in Hf.
    + unfold FS.is_symlink, FS.guarded in Hf. by rewrite (proj2 (Hnf item)) in Hf.
  - destruct Hr as [[Hm He]|[(dest & Hm & He)|(msg & Hm & He)]];
      rewrite Ht, Hs, Hm, He, ?length_app; cbn; split_and!; lia.
Qed.

Lemma run_counts st items :
  let st' := foldl (process_item faults source dry_run include_hidden) st items in
  length (moved st') + length (errors st') + length (skipped st')
    ≤ length items + (length (moved st) + length (errors st) + length (skipped st)) ∧
  total_files st' + length (skipped st')
    ≤ length items + (total_files st + length (skipped st)) ∧
  length (moved st') + total_files st ≤ total_files st' + length (moved st) ∧
  ((∀ p, faults (FS.IsDir p) = None ∧ faults (FS.IsSymlink p) = None) →
   length (moved st') + length (errors st') + total_files st
     ≤ total_files st' + length (moved st) + length (errors st)).
Proof.
  revert st. induction items as [|item items IH]; intros st; cbn [foldl length].
  { split_and!; lia. }
  destruct (IH (process_item faults source dry_run include_hidden st item))
    as (H1 & H2 & H3 & H4).
  destruct (process_item_counts st item) as (K1 & K2 & K3 & K4).
  split_and!; [lia..|].
  intros Hnf. specialize (H4 Hnf). specialize (K4 Hnf). lia.
Qed.

(** The sources of the records are entries of the traversal, in its
    order. *)
Lemma run_sublists st items pre :
  let st' := foldl (process_item faults source dry_run include_hidden) st items in
  (moved st).*1 `sublist_of` pre → (errors st).*1 `sublist_of` pre →
  skipped st `sublist_of` pre →
  (moved st').*1 `sublist_of` pre ++ items ∧
  (errors st').*1 `sublist_of` pre ++ items ∧
  skipped st' `sublist_of` pre ++ items.
Proof.
  revert st pre. induction items as [|item items IH]; intros st pre; cbn [foldl].
  { by rewrite app_nil_r. }
  intros Hm He Hs.
  replace (pre ++ item :: items) with ((pre ++ [item]) ++ items)
    by by rewrite <-app_assoc.
  assert (∀ l : list path, l `sublist_of` pre → l `sublist_of` pre ++ [item]) as Hkeep.
  { intros l Hl. by apply sublist_inserts_r. }
  assert (∀ l : list path, l `sublist_of` pre → l ++ [item] `sublist_of` pre ++ [item])
    as Hadd.
  { intros l Hl. by apply sublist_app. }
  pose proof (process_item_records st item) as Hrec. cbv zeta in Hrec.
  apply IH;
    destruct Hrec
      as [[-> _]|[(-> & _)|[(msg & -> & _)|(_ & Hsk & Hr)]]]; cbn;
    rewrite ?fmap_app; cbn; auto;
    try (rewrite Hsk; auto);
    destruct Hr as [[Hm' He']|[(dest & Hm' & He')|(msg & Hm' & He')]];
    rewrite ?Hm', ?He', ?fmap_app; cbn; auto.
Qed.

(** Only hidden names are skipped, and only when hidden files are not
    included. *)
Lemma run_skipped st items p :
  let st' := foldl (process_item faults source dry_run include_hidden) st items in
  p ∈ skipped st' →
  p ∈ skipped st ∨
  (include_hidden = false ∧ Str.startswith "." (PurePath.name p) = true).
Proof.
  revert st. induction items as [|item items IH]; intros st; cbn [foldl]; [by left|].
  intros Hp. destruct (IH _ Hp) as [Hin|?]; [|by right].
  pose proof (process_item_records st item) as Hrec. cbv zeta in Hrec.
  destruct Hrec
    as [[Hst _]|[(Hst & ? & ?)|[(msg & Hst & _)|(_ & Hsk & _)]]];
    rewrite ?Hst, ?Hsk in Hin; cbn in Hin; auto.
  apply elem_of_app in Hin as [?|Hx]; [by auto|].
  apply list_elem_of_singleton in Hx as ->. by auto.
Qed.

End Records.

(** X1.  In a returned result, every enumerated entry gives at most one
    record: the three counts add up to at most the number of entries; the
    counted files and the skipped ones are different entries; every move is
    the move of a counted file; and when the directory and link tests do not
    fail, so is every error. *)
Theorem at_most_one_record_per_entry (faults : FS.call → option exn) (source : path)
    (dry_run include_hidden : bool) (items : list path) (t t' : FS.tree)
    (r : run_result) :
  organize_directory faults source dry_run include_hidden items t = (t', Ok (Some r)) →
  (moved_count (r_summary r) + errors_count (r_summary r) + skipped_count (r_summary r)
     ≤ length items)%nat ∧
  (total_files_seen (r_summary r) + skipped_count (r_summary r) ≤ length items)%nat ∧
  (moved_count (r_summary r) ≤ total_files_seen (r_summary r))%nat ∧
  ((∀ p, faults (FS.IsDir p) = None ∧ faults (FS.IsSymlink p) = None) →
   (moved_count (r_summary r) + errors_count (r_summary r)
      ≤ total_files_seen (r_summary r))%nat).
Proof.
  intros (_ & -> & ->)%organize_directory_Some. cbn.
  destruct (run_counts faults source dry_run include_hidden (initial t) items)
    as (H1 & H2 & H3 & H4).
  cbn in *. split_and!; [lia..|]. intros Hnf. specialize (H4 Hnf). lia.
Qed.

Lemma at_most_one_record_per_entry_witness :
  (moved_count (r_summary desk_result_live) + errors_count (r_summary desk_result_live)
     + skipped_count (r_summary desk_result_live) ≤ length desk_items_live)%nat ∧
  (total_files_seen (r_summary desk_result_live) + skipped_count (r_summary desk_result_live)
     ≤ length desk_items_live)%nat ∧
  (moved_count (r_summary desk_result_live) ≤ total_files_seen (r_summary desk_result_live))%nat ∧
  ((∀ p, FS.no_faults (FS.IsDir p) = None ∧ FS.no_faults (FS.IsSymlink p) = None) →
   (moved_count (r_summary desk_result_live) + errors_count (r_summary desk_result_live)
      ≤ total_files_seen (r_summary desk_result_live))%nat).
Proof.
  apply (at_most_one_record_per_entry FS.no_faults ["src"] false false desk_items_live
           desk_tree desk_live.1 desk_result_live).
  compute_done.
Defined.

(** X2.  The records of a returned result follow the traversal: the sources
    of [moved], the paths of [errors] and the entries of [skipped] are
    entries the traversal yielded, in the order it yielded them. *)
Theorem records_follow_traversal (faults : FS.call → option exn) (source : path)
    (dry_run include_hidden : bool) (items : list path) (t t' : FS.tree)
    (r : run_result) :
  organize_directory faults source dry_run include_hidden items t = (t', Ok (Some r)) →
  (r_moved r).*1 `sublist_of` items ∧
  (r_errors r).*1 `sublist_of` items ∧
  r_skipped r `sublist_of` items.
Proof.
  intros (_ & -> & ->)%organize_directory_Some. cbn [report r_moved r_errors r_skipped].
  by apply (run_sublists faults source dry_run include_hidden (initial t) items []).
Qed.

Lemma records_follow_traversal_witness :
  (r_moved desk_result_live).*1 `sublist_of` desk_items_live ∧
  (r_errors desk_result_live).*1 `sublist_of` desk_items_live ∧
  r_skipped desk_result_live `sublist_of` desk_items_live.
Proof.
  apply (records_follow_traversal FS.no_faults ["src"] false false desk_items_live
           desk_tree desk_live.1 desk_result_live).
  compute_done.
Defined.

(** X3.  [skipped] only ever holds entries whose name starts with a dot,
    and it stays empty when hidden files are included. *)
Theorem skipped_are_hidden (faults : FS.call → option exn) (source : path)
    (dry_run include_hidden : bool) (items : list path) (t t' : FS.tree)
    (r : run_result) :
  organize_directory faults source dry_run include_hidden items t = (t', Ok (Some r)) →
  (include_hidden = true → r_skipped r = []) ∧
  ∀ p, p ∈ r_skipped r → Str.startswith "." (PurePath.name p) = true.
Proof.
  intros (_ & -> & ->)%organize_directory_Some. cbn [report r_skipped].
  assert (∀ p, p ∈ skipped (foldl (process_item faults source dry_run include_hidden)
                               (initial t) items) →
               include_hidden = false ∧ Str.startswith "." (PurePath.name p) = true)
    as Hall.
  { intros p Hp. apply run_skipped in Hp as [Hp|?]; [|done]. by apply elem_of_nil in Hp. }
  split.
  - intros ->. apply elem_of_nil_inv. intros p Hp. by destruct (Hall p Hp).
  - intros p Hp. by destruct (Hall p Hp).
Qed.

Lemma skipped_are_hidden_witness :
  (false = true → r_skipped desk_result_live = []) ∧
  ∀ p, p ∈ r_skipped desk_result_live → Str.startswith "." (PurePath.name p) = true.
Proof.
  apply (skipped_are_hidden FS.no_faults ["src"] false false desk_items_live
           desk_tree desk_live.1 desk_result_live).
  compute_done.
Defined.

(** ** What a run does to the tree *)

Section TreeEffects.
Local Open Scope nat_scope.
Variable faults : FS.call → option exn.
Variables (source : path) (dry_run include_hidden : bool).
Implicit Types (t : FS.tree) (item d dest q : path) (st : state) (items : list path).

Lemma prepared_node_at st item t1 q n :
  prepared faults source dry_run st item t1 →
  FS.node_at (fs st) q = Some n → FS.node_at t1 q = Some n.
Proof. intros [->|[_ Hmk]]; [done|]. by eapply mkdir_node_at. Qed.

Lemma prepared_fresh st item t1 q :
  prepared faults source dry_run st item t1 →
  FS.node_at (fs st) q = None →
  FS.node_at t1 q = None ∨
  (FS.node_at t1 q = Some FS.Dir ∧ q `prefix_of` source // category_of item).
Proof.
  intros [->|[_ Hmk]] Hq; [by left|].
  destruct q as [|c q]; [done|]. cbn in *.
  destruct (mkdir_lookup faults _ _ _ (c :: q) Hmk) as [->|(_ & ? & ?)]; auto.
Qed.

Lemma prepared_exists_in st item t1 q :
  prepared faults source dry_run st item t1 →
  FS.exists_in (fs st) q = true → FS.exists_in t1 q = true.
Proof. intros [->|[_ Hmk]]; [done|]. by eapply mkdir_exists_in. Qed.

Lemma prepared_file st item t1 q :
  prepared faults source dry_run st item t1 →
  FS.node_at t1 q = Some FS.File → FS.node_at (fs st) q = Some FS.File.
Proof.
  intros Hprep Hq. destruct (FS.node_at (fs st) q) as [n|] eqn:E.
  - by rewrite (prepared_node_at _ _ _ _ _ Hprep E) in Hq.
  - destruct (prepared_fresh _ _ _ _ Hprep E) as [?|[? _]]; congruence.
Qed.

Lemma node_at_moved_other t item dest q n :
  q ≠ item → q ≠ dest →
  FS.node_at (<[dest := n]> (delete item t)) q = FS.node_at t q.
Proof.
  intros ??. destruct q; [done|]. cbn.
  by rewrite lookup_insert_ne, lookup_delete_ne.
Qed.

Lemma exists_in_node_at t q : FS.exists_in t q = true → is_Some (FS.node_at t q).
Proof. unfold FS.exists_in. by destruct (FS.node_at t q). Qed.

Lemma process_item_moved st item :
  moved st `prefix_of` moved (process_item faults source dry_run include_hidden st item).
Proof.
  destruct (process_item_effect faults source include_hidden dry_run st item)
    as [t1 _ _ ->|t1 dest _ -> _ _ _ _ _ _|t1 dest e _ _ -> _ _ _ _ _ _];
    [done|by apply prefix_app_r|done].
Qed.

Lemma run_moved st items :
  moved st `prefix_of`
    moved (foldl (process_item faults source dry_run include_hidden) st items).
Proof.
  revert st. induction items as [|item items IH]; intros st; [done|].
  cbn [foldl]. etrans; [apply process_item_moved|apply IH].
Qed.

(** An iteration leaves alone every visible entry other than the one it
    records as moved. *)
Lemma process_item_untouched st item q :
  let st' := process_item faults source dry_run include_hidden st item in
  FS.exists_in (fs st) q = true →
  q ∉ (moved st').*1 ∨ q ≠ item ∨ moved st' = moved st →
  FS.node_at (fs st') q = FS.node_at (fs st) q.
Proof.
  intros st' Hq Hnot. subst st'.
  destruct (exists_in_node_at _ _ Hq) as [n Hn].
  destruct (process_item_effect faults source include_hidden dry_run st item)
    as [t1 Hprep -> Hm|t1 dest Hprep Hm _ _ _ _ Hfree Hfs
       |t1 dest e _ Hprep _ _ _ Hfree _ _ ->].
  - rewrite Hn. by eapply prepared_node_at.
  - pose proof (prepared_node_at _ _ _ _ _ Hprep Hn) as Hn1.
    assert (q ≠ item) as Hqi.
    { destruct Hnot as [Hnot|[?|Heq]]; [|done|].
      - intros ->. apply Hnot. rewrite Hm, fmap_app. cbn.
        apply elem_of_app. right. by apply list_elem_of_singleton.
      - rewrite Hm in Heq. apply (f_equal length) in Heq.
        rewrite length_app in Heq. cbn in Heq. lia. }
    destruct dry_run; [by rewrite Hfs, Hn1, Hn|].
    destruct Hfs as (_ & _ & ->).
    rewrite node_at_moved_other, Hn1, Hn; [done..|].
    intros ->. unfold FS.exists_in in Hq, Hfree. rewrite Hn in Hq.
    rewrite Hn1 in Hfree. congruence.
  - pose proof (prepared_node_at _ _ _ _ _ Hprep Hn) as Hn1.
    assert (q ≠ dest) as Hqd.
    { intros ->. unfold FS.exists_in in Hq, Hfree. rewrite Hn in Hq.
      rewrite Hn1 in Hfree. congruence. }
    rewrite <-Hn1 in Hn. rewrite Hn. destruct q as [|c q]; [done|]. cbn.
    by rewrite lookup_insert_ne.
Qed.

Lemma run_untouched st items q :
  let st' := foldl (process_item faults source dry_run include_hidden) st items in
  FS.exists_in (fs st) q = true →
  q ∉ (moved st').*1 →
  FS.node_at (fs st') q = FS.node_at (fs st) q.
Proof.
  revert st. induction items as [|item items IH]; intros st; cbn [foldl]; [done|].
  intros Hq Hnot.
  assert (q ∉ (moved (process_item faults source dry_run include_hidden st item)).*1)
    as Hnot1.
  { intros Hin. apply Hnot.
    destruct (run_moved (process_item faults source dry_run include_hidden st item) items)
      as [k ->].
    rewrite fmap_app. apply elem_of_app. by left. }
  pose proof (process_item_untouched st item q Hq (or_introl Hnot1)) as Hstep.
  cbv zeta in Hstep. rewrite <-Hstep. apply IH; [|done].
  unfold FS.exists_in in *. by rewrite Hstep.
Qed.

(** An iteration creates nothing but a destination it records, a
    directory on the way to the entry's category directory, or the copy a
    failed move has left, for which it records an error. *)
Lemma process_item_created st item q :
  let st' := process_item faults source dry_run include_hidden st item in
  FS.node_at (fs st) q = None →
  FS.node_at (fs st') q = None ∨
  q `prefix_of` source // category_of item ∨
  q ∈ (moved st').*2 ∨
  ∃ msg, errors st' = errors st ++ [(item, msg)] ∧
         variant_of (source // category_of item // PurePath.name item) q.
Proof.
  intros st' Hq. subst st'.
  destruct (process_item_effect faults source include_hidden dry_run st item)
    as [t1 Hprep -> Hm|t1 dest Hprep Hm _ _ _ _ Hfree Hfs
       |t1 dest e _ Hprep _ He Hv Hfree _ _ ->].
  - destruct (prepared_fresh _ _ _ _ Hprep Hq) as [?|[_ ?]]; auto.
  - destruct (decide (q = dest)) as [->|Hne].
    { right; right; left. rewrite Hm, fmap_app. cbn. apply elem_of_app. right.
      by apply list_elem_of_singleton. }
    destruct (prepared_fresh _ _ _ _ Hprep Hq) as [Hq1|[_ ?]]; [|by auto].
    left. destruct dry_run; [by rewrite Hfs|].
    destruct Hfs as (Hitem & _ & ->).
    destruct (decide (q = item)) as [->|?]; [congruence|].
    by rewrite node_at_moved_other.
  - destruct (decide (q = dest)) as [->|Hne].
    { right; right; right. by exists (exn_str e). }
    destruct (prepared_fresh _ _ _ _ Hprep Hq) as [Hq1|[_ ?]]; [|by auto].
    left. destruct q as [|c q]; [done|]. cbn in *. by rewrite lookup_insert_ne.
Qed.

Lemma run_created st items q :
  let st' := foldl (process_item faults source dry_run include_hidden) st items in
  FS.node_at (fs st) q = None →
  FS.node_at (fs st') q = None ∨
  (∃ item, item ∈ items ∧ q `prefix_of` source // category_of item) ∨
  q ∈ (moved st').*2 ∨
  ∃ item msg, item ∈ items ∧ (item, msg) ∈ errors st' ∧
              variant_of (source // category_of item // PurePath.name item) q.
Proof.
  revert st. induction items as [|item items IH]; intros st; cbn [foldl]; [by left|].
  intros Hq.
  pose proof (process_item_created st item q Hq) as Hstep. cbv zeta in Hstep.
  destruct Hstep as [Hq1|[Hpre|[Hin|(msg & He & Hv)]]].
  - destruct (IH _ Hq1) as [?|[(i & ? & ?)|[?|(i & m & ? & ? & ?)]]]; auto.
    + right; left. exists i. split; [by right|done].
    + right; right; right. exists i, m. split_and!; [by right|done..].
  - right; left. exists item. split; [by left|done].
  - right; right; left.
    destruct (run_moved (process_item faults source dry_run include_hidden st item) items)
      as [k ->].
    rewrite fmap_app. apply elem_of_app. by left.
  - right; right; right. exists item, msg. split_and!; [by left| |done].
    eapply elem_of_prefix;
      [|apply (run_errors faults source dry_run include_hidden _ items)].
    rewrite He. apply elem_of_app. right. by apply list_elem_of_singleton.
Qed.

(** Every recorded destination is the candidate path of its source or one
    of its numbered variants. *)
Lemma run_variants st items :
  let st' := foldl (process_item faults source dry_run include_hidden) st items in
  (∀ item dest, (item, dest) ∈ moved st →
     variant_of (source // category_of item // PurePath.name item) dest) →
  ∀ item dest, (item, dest) ∈ moved st' →
     variant_of (source // category_of item // PurePath.name item) dest.
Proof.
  revert st. induction items as [|item items IH]; intros st; cbn [foldl]; [done|].
  intros Hall. apply IH. intros i d Hin.
  destruct (process_item_effect faults source include_hidden dry_run st item)
    as [t1 _ _ Hm|t1 dest _ Hm _ Hv _ _ _ _|t1 dest e _ _ Hm _ _ _ _ _ _];
    rewrite Hm in Hin; [by apply Hall| |by apply Hall].
  apply elem_of_app in Hin as [?|Hx]; [by apply Hall|].
  apply list_elem_of_singleton in Hx. by simplify_eq.
Qed.

End TreeEffects.

Lemma variant_of_shape (source item dest : path) :
  variant_of (source // category_of item // PurePath.name item) dest →
  PurePath.parent dest = source // category_of item ∧
  category_of dest = category_of item ∧
  (PurePath.name dest = PurePath.name item ∨
   ∃ k, (1 ≤ k)%nat ∧
        PurePath.name dest =
          PurePath.stem item +:+ " (" +:+ pretty k +:+ ")" +:+ PurePath.suffix item).
Proof.
  intros [->|(k & Hk & ->)].
  - rewrite parent_joinpath, category_of_joinpath, name_joinpath. by auto.
  - rewrite numbered_parent, parent_joinpath, category_of_numbered, category_of_joinpath.
    split_and!; [done..|]. right. exists k. split; [done|].
    unfold numbered, PurePath.stem, PurePath.suffix.
    by rewrite !name_joinpath.
Qed.

(** X4.  Every recorded move goes to the directory [source / category] of
    its source file, under the file's own name or that name with [" (k)"],
    [k >= 1], inserted between stem and suffix; the destination has the
    category of the source, so it is in place there. *)
Theorem destinations_are_in_category_directory (faults : FS.call → option exn)
    (source : path) (dry_run include_hidden : bool) (items : list path)
    (t t' : FS.tree) (r : run_result) :
  organize_directory faults source dry_run include_hidden items t = (t', Ok (Some r)) →
  ∀ item dest, (item, dest) ∈ r_moved r →
    PurePath.parent dest = source // category_of item ∧
    category_of dest = category_of item ∧
    (PurePath.name dest = PurePath.name item ∨
     ∃ k, (1 ≤ k)%nat ∧
          PurePath.name dest =
            PurePath.stem item +:+ " (" +:+ pretty k +:+ ")" +:+ PurePath.suffix item).
Proof.
  intros (_ & -> & ->)%organize_directory_Some item dest Hin.
  cbn [report r_moved] in Hin.
  apply variant_of_shape.
  eapply (run_variants faults source dry_run include_hidden (initial t) items); [|done].
  by intros ?? ?%elem_of_nil.
Qed.

Lemma destinations_are_in_category_directory_witness :
  PurePath.parent ["src"; "Documents"; "notes (1).txt"]
  = ["src"] // category_of ["src"; "notes.txt"] ∧
  category_of ["src"; "Documents"; "notes (1).txt"] = category_of ["src"; "notes.txt"] ∧
  (PurePath.name ["src"; "Documents"; "notes (1).txt"] = PurePath.name ["src"; "notes.txt"] ∨
   ∃ k, (1 ≤ k)%nat ∧
        PurePath.name ["src"; "Documents"; "notes (1).txt"] =
          PurePath.stem ["src"; "notes.txt"] +:+ " (" +:+ pretty k +:+ ")"
            +:+ PurePath.suffix ["src"; "notes.txt"]).
Proof.
  apply (destinations_are_in_category_directory FS.no_faults ["src"] false false
           desk_items_live desk_tree desk_live.1 desk_result_live).
  - compute_done.
  - compute_done.
Defined.

(** X5.  A run leaves alone whatever it does not record as moved: every
    entry visible before the run whose path is not the source of a record
    in [moved] is the same entry after it. *)
Theorem unmoved_entries_are_untouched (faults : FS.call → option exn) (source : path)
    (dry_run include_hidden : bool) (items : list path) (t t' : FS.tree)
    (r : run_result) :
  organize_directory faults source dry_run include_hidden items t = (t', Ok (Some r)) →
  ∀ q, FS.exists_in t q = true → q ∉ (r_moved r).*1 →
       FS.node_at t' q = FS.node_at t q.
Proof.
  intros (_ & -> & ->)%organize_directory_Some q Hq Hnot.
  cbn [report r_moved] in Hnot.
  by apply (run_untouched faults source dry_run include_hidden (initial t) items q).
Qed.

Lemma unmoved_entries_are_untouched_witness :
  FS.node_at desk_live.1 ["src"; ".env"] = FS.node_at desk_tree ["src"; ".env"].
Proof.
  apply (unmoved_entries_are_untouched FS.no_faults ["src"] false false desk_items_live
           desk_tree desk_live.1 desk_result_live).
  - compute_done.
  - reflexivity.
  - compute_done.
Defined.

(** X6.  A run creates nothing but what it is for.  In a tree without
    symbolic links, a path that is
    absent before the run and present after it is a destination recorded in
    [moved], or lies on the way to the category directory of an enumerated
    entry, or is the candidate path, or a numbered variant of it, of an
    entry recorded in [errors]: the copy a failed move has left. *)
Theorem only_destinations_and_category_directories_are_created
    (faults : FS.call → option exn) (source : path)
    (dry_run include_hidden : bool) (items : list path) (t t' : FS.tree)
    (r : run_result) :
  organize_directory faults source dry_run include_hidden items t = (t', Ok (Some r)) →
  map_Forall (λ _ n, n = FS.File ∨ n = FS.Dir) t →
  ∀ q, FS.node_at t q = None → is_Some (FS.node_at t' q) →
       q ∈ (r_moved r).*2 ∨
       (∃ item, item ∈ items ∧ q `prefix_of` source // category_of item) ∨
       (∃ item msg, item ∈ items ∧ (item, msg) ∈ r_errors r ∧
                    variant_of (source // category_of item // PurePath.name item) q).
Proof.
  intros (_ & -> & ->)%organize_directory_Some _ q Hq [n Hn].
  cbn [report r_moved r_errors].
  destruct (run_created faults source dry_run include_hidden (initial t) items q Hq)
    as [Hnone|[?|[?|?]]]; auto.
  cbv zeta in Hnone. congruence.
Qed.

Lemma only_destinations_and_category_directories_are_created_witness :
  ["src"; "Documents"; "x.txt"] ∈ (r_moved copy_left_result).*2 ∨
  (∃ item, item ∈ twins_items ∧
           ["src"; "Documents"; "x.txt"] `prefix_of` ["src"] // category_of item) ∨
  (∃ item msg, item ∈ twins_items ∧ (item, msg) ∈ r_errors copy_left_result ∧
               variant_of (["src"] // category_of item // PurePath.name item)
                 ["src"; "Documents"; "x.txt"]).
Proof.
  apply (only_destinations_and_category_directories_are_created
           (deny_unlink ["src"; "a"; "x.txt"]) ["src"] false false twins_items
           twins_tree copy_left_tree copy_left_result).
  - compute_done.
  - compute_done.
  - reflexivity.
  - compute_done.
Defined.

(** ** Dry runs *)

Section DryDestinations.
Variable faults : FS.call → option exn.
Variables (source : path) (include_hidden : bool).

Lemma process_item_dry_free st item :
  let st' := process_item faults source true include_hidden st item in
  fs st' = fs st ∧
  (moved st' = moved st ∨
   ∃ dest, moved st' = moved st ++ [(item, dest)] ∧
           FS.exists_in (fs st) dest = false ∧ FS.is_dir_in (fs st) item = false).
Proof.
  intros st'. subst st'.
  destruct (process_item_effect faults source include_hidden true st item)
    as [t1 Hprep -> Hm|t1 dest Hprep Hm _ _ _ Hdir Hfree Hfs|t1 dest e ? _ _ _ _ _ _ _ _];
    [| |done].
  - destruct Hprep as [->|[? _]]; [auto|done].
  - destruct Hprep as [->|[? _]]; [|done]. split; [done|]. right.
    exists dest. by split_and!.
Qed.

Lemma run_dry_free st items :
  let st' := foldl (process_item faults source true include_hidden) st items in
  (∀ item dest, (item, dest) ∈ moved st →
     FS.exists_in (fs st) dest = false ∧ FS.is_dir_in (fs st) item = false) →
  fs st' = fs st ∧
  ∀ item dest, (item, dest) ∈ moved st' →
     FS.exists_in (fs st) dest = false ∧ FS.is_dir_in (fs st) item = false.
Proof.
  revert st. induction items as [|item items IH]; intros st; cbn [foldl]; [done|].
  intros Hall.
  pose proof (process_item_dry_free st item) as Hstep. cbv zeta in Hstep.
  destruct Hstep as [Hfs Hm].
  specialize (IH (process_item faults source true include_hidden st item)).
  cbv zeta in IH. rewrite Hfs in IH. apply IH.
  intros i d Hin. destruct Hm as [Hm|(dest & Hm & ? & ?)]; rewrite Hm in Hin;
    [by apply Hall|].
  apply elem_of_app in Hin as [?|Hx]; [by apply Hall|].
  apply list_elem_of_singleton in Hx. by simplify_eq.
Qed.

End DryDestinations.

(** X7.  A dry run touches nothing, and what it proposes has been checked
    against the tree as it is: the tree is returned as it was, every
    proposed destination is a path at which the existence test fails in
    it, and no proposed source is a directory.  (Nothing more is checked: a
    proposed move can be one that a live run fails to make.) *)
Theorem dry_run_proposes_free_destinations (faults : FS.call → option exn)
    (source : path) (include_hidden : bool) (items : list path)
    (t t' : FS.tree) (r : run_result) :
  organize_directory faults source true include_hidden items t = (t', Ok (Some r)) →
  t' = t ∧
  ∀ item dest, (item, dest) ∈ r_moved r →
    FS.exists_in t dest = false ∧ FS.is_dir_in t item = false.
Proof.
  intros (_ & -> & ->)%organize_directory_Some. cbn [report r_moved].
  apply (run_dry_free faults source include_hidden (initial t) items).
  by intros ?? ?%elem_of_nil.
Qed.

Lemma dry_run_proposes_free_destinations_witness :
  desk_tree = desk_tree ∧
  ∀ item dest, (item, dest) ∈ r_moved desk_result →
    FS.exists_in desk_tree dest = false ∧ FS.is_dir_in desk_tree item = false.
Proof.
  apply (dry_run_proposes_free_destinations FS.no_faults ["src"] false desk_items
           desk_tree desk_tree desk_result).
  compute_done.
Defined.

(** ** Live moves *)

(** X8.  A live iteration records a move only once the move has been made:
    the entry was a regular file and nothing existed at the destination;
    afterwards the file is at the destination and no longer at its old
    path, and the iteration has recorded no error. *)
Theorem recorded_move_took_place (faults : FS.call → option exn) (source : path)
    (include_hidden : bool) (st : state) (item dest : path) :
  let st' := process_item faults source false include_hidden st item in
  moved st' = moved st ++ [(item, dest)] →
  FS.node_at (fs st) item = Some FS.File ∧
  FS.exists_in (fs st) dest = false ∧
  FS.node_at (fs st') dest = Some FS.File ∧
  FS.node_at (fs st') item = None ∧
  errors st' = errors st.
Proof.
  intros st' Hrec. subst st'.
  destruct (process_item_effect faults source include_hidden false st item)
    as [t1 _ _ Hm|t1 dest' Hprep Hm He Hv _ _ Hfree (Hitem & _ & Hfs)
       |t1 dest' e _ _ Hm _ _ _ _ _ _].
  { rewrite Hm in Hrec. apply (f_equal length) in Hrec.
    rewrite length_app in Hrec. cbn in Hrec. lia. }
  2:{ rewrite Hm in Hrec. apply (f_equal length) in Hrec.
      rewrite length_app in Hrec. cbn in Hrec. lia. }
  rewrite Hm in Hrec. apply app_inj_tail in Hrec as [_ [= <-]].
  assert (dest' ≠ []) as Hd.
  { destruct Hv as [->|(k & _ & ->)]; [apply joinpath_not_root|apply numbered_not_root]. }
  assert (item ≠ []) as Hi by by intros ->.
  assert (item ≠ dest') as Hne.
  { intros <-. unfold FS.exists_in in Hfree. by rewrite Hitem in Hfree. }
  split_and!; [|  |  |  |done].
  - by eapply prepared_file.
  - destruct (FS.exists_in (fs st) dest') eqn:E; [|done].
    by rewrite (prepared_exists_in _ _ _ _ _ _ _ Hprep E) in Hfree.
  - by rewrite Hfs, node_at_lookup, lookup_insert_eq.
  - by rewrite Hfs, node_at_lookup, lookup_insert_ne, lookup_delete_eq.
Qed.

Lemma recorded_move_took_place_witness :
  FS.node_at twins_tree ["src"; "a"; "x.txt"] = Some FS.File ∧
  FS.exists_in twins_tree ["src"; "Documents"; "x.txt"] = false ∧
  FS.node_at
    (fs (process_item FS.no_faults ["src"] false false (initial twins_tree)
           ["src"; "a"; "x.txt"]))
    ["src"; "Documents"; "x.txt"] = Some FS.File ∧
  FS.node_at
    (fs (process_item FS.no_faults ["src"] false false (initial twins_tree)
           ["src"; "a"; "x.txt"]))
    ["src"; "a"; "x.txt"] = None ∧
  errors (process_item FS.no_faults ["src"] false false (initial twins_tree)
            ["src"; "a"; "x.txt"]) = [].
Proof.
  apply (recorded_move_took_place FS.no_faults ["src"] false (initial twins_tree)
           ["src"; "a"; "x.txt"] ["src"; "Documents"; "x.txt"]).
  compute_done.
Defined.

(** ** Running again *)

Lemma is_dir_in_node_at (t : FS.tree) (p : path) :
  FS.is_dir_in t p = true ↔ FS.node_at t p = Some FS.Dir.
Proof.
  unfold FS.is_dir_in. destruct (FS.node_at t p) as [[]|]; split; congruence.
Qed.

Section Settled.
Variable faults : FS.call → option exn.
Variables (source : path) (include_hidden : bool).
Hypothesis resolve_total : ∀ p, faults (FS.Resolve p) = None.

(** A live iteration keeps what earlier moves have settled, and settles
    what it moves. *)
Lemma process_item_settled st item :
  let st' := process_item faults source false include_hidden st item in
  (∀ d, d ∈ (moved st).*2 → settled source (fs st) d) →
  ∀ d, d ∈ (moved st').*2 → settled source (fs st') d.
Proof.
  intros st' Hall. subst st'.
  destruct (process_item_effect faults source include_hidden false st item)
    as [t1 Hprep -> Hm|t1 dest Hprep Hm _ Hv Hres _ Hfree (Hitem & Hpar & Hfs)
       |t1 dest e _ Hprep Hm _ _ Hfree _ _ Hfs].
  - rewrite Hm. intros d Hd. destruct (Hall d Hd) as (Hf & Hp & Hin).
    split_and!; [by eapply prepared_node_at| |done].
    apply is_dir_in_node_at. eapply prepared_node_at; [done|].
    by apply is_dir_in_node_at.
  - assert (∀ q n, FS.node_at t1 q = Some n → FS.exists_in t1 q = true →
                   n ≠ FS.File →
                   FS.node_at (fs (process_item faults source false include_hidden st item)) q
                   = Some n) as Hkeep.
    { intros q n Hq Hex Hn. rewrite Hfs, node_at_moved_other; [done| |]; intros ->; congruence. }
    assert (item ≠ source // category_of item // PurePath.name item) as Hout.
    { intros Heq. unfold same_resolved in Hres. rewrite !resolve_total in Hres.
      by rewrite bool_decide_true in Hres. }
    assert (dest ≠ []) as Hdest.
    { destruct Hv as [->|(k & _ & ->)]; [apply joinpath_not_root|apply numbered_not_root]. }
    assert (FS.node_at (fs (process_item faults source false include_hidden st item))
              (PurePath.parent dest) = Some FS.Dir) as Hpar'.
    { apply is_dir_in_node_at in Hpar. apply Hkeep; [done| |done].
      unfold FS.exists_in. by rewrite Hpar. }
    rewrite Hm, fmap_app. intros d [Hd|Hd]%elem_of_app.
    + destruct (Hall d Hd) as (Hf & Hp & Hin).
      pose proof (prepared_node_at _ _ _ _ _ _ _ _ Hprep Hf) as Hf1.
      apply is_dir_in_node_at in Hp.
      pose proof (prepared_node_at _ _ _ _ _ _ _ _ Hprep Hp) as Hp1.
      split_and!; [| |done].
      * rewrite Hfs, node_at_moved_other; [done| |].
        -- intros ->. by apply Hout.
        -- intros ->. unfold FS.exists_in in Hfree. by rewrite Hf1 in Hfree.
      * apply is_dir_in_node_at. apply Hkeep; [done| |done].
        unfold FS.exists_in. by rewrite Hp1.
    + cbn in Hd. apply list_elem_of_singleton in Hd as ->.
      split_and!.
      * by rewrite Hfs, node_at_lookup, lookup_insert_eq.
      * by apply is_dir_in_node_at.
      * destruct Hv as [->|(k & _ & ->)];
          [apply in_place_candidate|apply in_place_numbered].
  - (* a copy left behind takes the place of nothing that is settled *)
    assert (∀ q n, FS.node_at t1 q = Some n → FS.exists_in t1 q = true →
                   FS.node_at (<[dest := FS.File]> t1) q = Some n) as Hkeep.
    { intros q n Hq Hex. destruct q as [|c q]; [done|]. cbn in *.
      rewrite lookup_insert_ne; [done|]. intros ->. unfold FS.exists_in in Hfree, Hex.
      cbn in *. rewrite Hq in Hfree, Hex. congruence. }
    rewrite Hm, Hfs. intros d Hd. destruct (Hall d Hd) as (Hf & Hp & Hin).
    pose proof (prepared_node_at _ _ _ _ _ _ _ _ Hprep Hf) as Hf1.
    apply is_dir_in_node_at in Hp.
    pose proof (prepared_node_at _ _ _ _ _ _ _ _ Hprep Hp) as Hp1.
    split_and!; [| |done].
    + apply Hkeep; [done|]. unfold FS.exists_in. by rewrite Hf1.
    + apply is_dir_in_node_at, Hkeep; [done|]. unfold FS.exists_in. by rewrite Hp1.
Qed.

Lemma run_settled st items :
  let st' := foldl (process_item faults source false include_hidden) st items in
  (∀ d, d ∈ (moved st).*2 → settled source (fs st) d) →
  ∀ d, d ∈ (moved st').*2 → settled source (fs st') d.
Proof.
  revert st. induction items as [|item items IH]; intros st; cbn [foldl]; [done|].
  intros Hall. by apply IH, process_item_settled.
Qed.

End Settled.

Section Idle.
Variable faults : FS.call → option exn.
Variable source : path.

(** An iteration over an entry at rest changes neither the tree nor
    [moved] nor [errors]. *)
Lemma process_item_idle dry_run hidden st d :
  (∀ c, faults c = None) →
  at_rest source hidden (fs st) d →
  let st' := process_item faults source dry_run hidden st d in
  fs st' = fs st ∧ moved st' = moved st ∧ errors st' = errors st.
Proof.
  intros Hnf Hrest st'. subst st'.
  assert (hidden_skip hidden d = true ∨ settled source (fs st) d →
          let st' := process_item faults source dry_run hidden st d in
          fs st' = fs st ∧ moved st' = moved st ∧ errors st' = errors st) as Hlast.
  { intros Hcase.
    rewrite process_item_settle, loop_body_finish.
    unfold bind, inspect, modify, ret, FS.is_dir, FS.is_symlink, FS.guarded.
    rewrite !Hnf.
    destruct (FS.is_dir_in (fs st) d); [done|].
    destruct (FS.is_symlink_in (fs st) d); [done|].
    fold (hidden_skip hidden d).
    destruct (hidden_skip hidden d) eqn:Hh; [done|].
    destruct Hcase as [?|(Hf & Hp & Hin)]; [done|].
    change (fs (incr_total_files st)) with (fs st).
    rewrite path_exists_no_fault by done.
    assert (FS.exists_in (fs st) (source // category_of d) = true) as ->.
    { unfold in_place in Hin. rewrite Hin, parent_joinpath in Hp.
      apply is_dir_in_node_at in Hp. unfold FS.exists_in. by rewrite Hp. }
    cbn [negb when ret]. unfold finish, bind. rewrite is_same_file_eq.
    unfold same_resolved. rewrite <-Hin, Hnf. by rewrite bool_decide_true. }
  destruct Hrest as [Hd|[Hl|Hrest]]; [| |by apply Hlast].
  - rewrite process_item_settle, loop_body_finish.
    unfold bind, inspect, ret, FS.is_dir, FS.guarded. by rewrite Hnf, Hd.
  - rewrite process_item_settle, loop_body_finish.
    unfold bind, inspect, ret, FS.is_dir, FS.is_symlink, FS.guarded.
    rewrite !Hnf. destruct (FS.is_dir_in (fs st) d); [done|]. by rewrite Hl.
Qed.

Lemma run_idle dry_run hidden st ds :
  (∀ c, faults c = None) →
  (∀ d, d ∈ ds → at_rest source hidden (fs st) d) →
  let st' := foldl (process_item faults source dry_run hidden) st ds in
  fs st' = fs st ∧ moved st' = moved st ∧ errors st' = errors st.
Proof.
  intros Hnf. revert st. induction ds as [|d ds IH]; intros st Hall; [done|].
  cbn [foldl].
  pose proof (process_item_idle dry_run hidden st d Hnf (Hall d ltac:(by left))) as Hstep.
  cbv zeta in Hstep. destruct Hstep as (Hfs & Hm & He).
  specialize (IH (process_item faults source dry_run hidden st d)).
  cbv zeta in IH. rewrite Hfs, Hm, He in IH. apply IH.
  intros d' Hd'. apply Hall. by right.
Qed.

End Idle.

(** X9.  Running again changes nothing.  In an environment without
    failures, take a live run over entries below [source], and then a second
    run, live or dry, over a listing of the tree it has left in which every
    entry is a directory, a link, a name the hidden-file filter skips, a
    destination of the first run, or a regular file that sits where the
    program would put it.  The second run returns a result, moves nothing,
    records no error and leaves the tree as the first run left it. *)
Theorem rerun_is_idle (faults : FS.call → option exn) (source : path)
    (include_hidden dry_run' include_hidden' : bool) (items items' : list path)
    (t t' : FS.tree) (r : run_result) :
  (∀ c, faults c = None) →
  source ∉ items →
  organize_directory faults source false include_hidden items t = (t', Ok (Some r)) →
  (∀ d, d ∈ items' →
        d ∈ (r_moved r).*2 ∨ at_rest source include_hidden' t' d) →
  ∃ r', organize_directory faults source dry_run' include_hidden' items' t'
        = (t', Ok (Some r')) ∧
        r_moved r' = [] ∧ r_errors r' = [].
Proof.
  intros Hnf Hsrc (Hex & -> & ->)%organize_directory_Some Hdests.
  cbn [report r_moved] in Hdests.
  set (st1 := foldl (process_item faults source false include_hidden) (initial t) items)
    in *.
  assert (FS.path_exists faults (fs st1) source = Ok true) as Hex'.
  { rewrite path_exists_no_fault in * by done. f_equal. injection Hex as Hex.
    pose proof (run_untouched faults source false include_hidden (initial t) items
                  source Hex) as Hkeep.
    cbv zeta in Hkeep. unfold FS.exists_in in *. subst st1. rewrite Hkeep; [done|].
    intros Hin. apply Hsrc.
    destruct (run_sublists faults source false include_hidden (initial t) items [])
      as (Hsub & _ & _); [apply sublist_nil_l..|].
    by eapply elem_of_sublist. }
  destruct (run_idle faults source dry_run' include_hidden' (initial (fs st1)) items' Hnf)
    as (Hfs & Hm & He).
  { intros d Hd. destruct (Hdests d Hd) as [Hin|?]; [|done].
    right; right; right.
    apply (run_settled faults source include_hidden (λ p, Hnf (FS.Resolve p))
             (initial t) items); [by intros ? ?%elem_of_nil|done]. }
  eexists. split; [|split].
  - rewrite organize_directory_total; [|done|by intros]. f_equal. exact Hfs.
  - exact Hm.
  - exact He.
Qed.

Lemma rerun_is_idle_witness :
  ∃ r', organize_directory FS.no_faults ["src"] false false twins_rerun_items twins_live.1
        = (twins_live.1, Ok (Some r')) ∧
        r_moved r' = [] ∧ r_errors r' = [].
Proof.
  apply (rerun_is_idle FS.no_faults ["src"] false false false twins_items
           twins_rerun_items twins_tree twins_live.1
           (RunResult twins_moved [] [] (Summary 2 2 0 0))).
  - intros c. reflexivity.
  - compute_done.
  - compute_done.
  - intros d Hd. unfold twins_rerun_items in Hd.
    repeat (apply elem_of_cons in Hd as [-> | Hd];
            [first [left; compute_done | right; left; reflexivity]|]).
    by apply elem_of_nil in Hd.
Defined.

(** ** The helpers *)

Lemma numbered_ne_target (target : path) (k : nat) : numbered target k ≠ target.
Proof.
  intros Heq. apply (f_equal PurePath.name) in Heq. rewrite numbered_name in Heq.
  apply (f_equal Str.len) in Heq.
  pose proof (f_equal Str.len (stem_suffix (PurePath.name target))) as Hlen.
  unfold PurePath.stem, PurePath.suffix, tag in Heq.
  rewrite len_app in Hlen. repeat rewrite len_app in Heq.
  change (Str.len " (") with 2 in Heq. change (Str.len ")") with 1 in Heq.
  pose proof (len_nonneg (pretty k)). lia.
Qed.

(** X10.  Whatever [resolve_conflict] returns is a new name beside the
    target: a path other than the target, at which nothing exists, in the
    target's directory and of the target's category; the tree and the
    records are as before the call. *)
Theorem resolve_conflict_returns_free_sibling (faults : FS.call → option exn)
    (target p : path) (st st' : state) :
  resolve_conflict faults target st = (st', Ok p) →
  st' = st ∧
  p ≠ target ∧
  FS.exists_in (fs st) p = false ∧
  PurePath.parent p = PurePath.parent target ∧
  category_of p = category_of target.
Proof.
  intros (-> & Hfree & k & _ & ->)%resolve_conflict_Ok.
  split_and!; [done|apply numbered_ne_target|done|apply numbered_parent|
               apply category_of_numbered].
Qed.

Lemma resolve_conflict_returns_free_sibling_witness :
  taken_state = taken_state ∧
  ["docs"; "report (3).txt"] ≠ ["docs"; "report.txt"] ∧
  FS.exists_in (fs taken_state) ["docs"; "report (3).txt"] = false ∧
  PurePath.parent ["docs"; "report (3).txt"] = PurePath.parent ["docs"; "report.txt"] ∧
  category_of ["docs"; "report (3).txt"] = category_of ["docs"; "report.txt"].
Proof.
  apply (resolve_conflict_returns_free_sibling FS.no_faults ["docs"; "report.txt"]
           ["docs"; "report (3).txt"] taken_state taken_state).
  compute_done.
Defined.

(** X11.  [resolve_conflict] handles no exception: when it raises, the
    exception is the one the environment raised for the existence test of a
    numbered variant, every variant with a smaller number having tested as
    existing; the tree and the records are as before the call. *)
Theorem resolve_conflict_raises_from_existence_test (faults : FS.call → option exn)
    (target : path) (st st' : state) (e : exn) :
  resolve_conflict faults target st = (st', Raise e) →
  st' = st ∧
  ∃ k, (1 ≤ k)%nat ∧
       faults (FS.Exists (numbered target k)) = Some e ∧
       ∀ j, (1 ≤ j < k)%nat →
            FS.path_exists faults (fs st) (numbered target j) = Ok true.
Proof.
  unfold resolve_conflict, inspect.
  destruct (resolve_conflict_fuel faults (fs st) target) as (k & Hk & Hall & _ & ->).
  unfold loop_outcome, FS.path_exists, FS.guarded.
  destruct (faults (FS.Exists (numbered target k))) as [e'|] eqn:E; [|done].
  intros [= <- <-]. split; [done|]. exists k. split_and!; [lia|done|done].
Qed.

Lemma resolve_conflict_raises_from_existence_test_witness :
  taken_state = taken_state ∧
  ∃ k, (1 ≤ k)%nat ∧
       deny_exists ["docs"; "report (2).txt"]
         (FS.Exists (numbered ["docs"; "report.txt"] k))
       = Some (Exn PermissionError "Permission denied") ∧
       ∀ j, (1 ≤ j < k)%nat →
            FS.path_exists (deny_exists ["docs"; "report (2).txt"]) (fs taken_state)
              (numbered ["docs"; "report.txt"] j) = Ok true.
Proof.
  apply (resolve_conflict_raises_from_existence_test
           (deny_exists ["docs"; "report (2).txt"]) ["docs"; "report.txt"]
           taken_state taken_state (Exn PermissionError "Permission denied")).
  compute_done.
Defined.

(** X12.  [is_same_file] never raises and changes nothing: it answers
    [False] as soon as resolving either path fails, it gives the same
    answer with its arguments exchanged, and it answers [True] for a path
    and itself when the path resolves. *)
Theorem is_same_file_never_raises (faults : FS.call → option exn) (a b : path)
    (st : state) :
  ∃ same,
    is_same_file faults a b st = (st, Ok same) ∧
    is_same_file faults b a st = (st, Ok same) ∧
    (faults (FS.Resolve a) ≠ None ∨ faults (FS.Resolve b) ≠ None → same = false) ∧
    (faults (FS.Resolve a) = None → is_same_file faults a a st = (st, Ok true)).
Proof.
  exists (same_resolved faults a b). rewrite !is_same_file_eq. split_and!.
  - done.
  - do 2 f_equal. unfold same_resolved.
    destruct (faults (FS.Resolve a)), (faults (FS.Resolve b)); try done.
    apply bool_decide_ext. by split.
  - unfold same_resolved.
    destruct (faults (FS.Resolve a)), (faults (FS.Resolve b)); try done.
    by intros [|].
  - intros Ha. unfold same_resolved. by rewrite Ha, bool_decide_true.
Qed.

(** ** Runs in a healthy environment *)

Lemma mkdir_go_Ok (t : FS.tree) (done todo : path) :
  (∀ q, done `prefix_of` q → q `prefix_of` done ++ todo → q ≠ done →
        FS.node_at t q = None ∨ FS.node_at t q = Some FS.Dir) →
  ∃ t', FS.mkdir_go t done todo = Ok t'.
Proof.
  revert t done. induction todo as [|c todo IH]; intros t done Hall; cbn [FS.mkdir_go].
  { by eexists. }
  assert (done ++ c :: todo = (done // c) ++ todo) as Hsplit
    by (unfold PurePath.joinpath; by rewrite <-app_assoc).
  assert (done // c ≠ done) as Hne.
  { intros Heq. apply (f_equal length) in Heq. unfold PurePath.joinpath in Heq.
    rewrite length_app in Heq. cbn in Heq. lia. }
  assert (∀ q, done // c `prefix_of` q → q ≠ done // c →
               done `prefix_of` q ∧ q ≠ done ∧ q ≠ []) as Hbelow.
  { intros q [k ->] Hq. unfold PurePath.joinpath. split_and!.
    - rewrite <-app_assoc. by apply prefix_app_r.
    - intros Heq. apply (f_equal length) in Heq. rewrite !length_app in Heq.
      cbn in Heq. lia.
    - by destruct done. }
  destruct (Hall (done // c)) as [Hq|Hq];
    [by apply prefix_app_r|rewrite Hsplit; by apply prefix_app_r|done| |];
    rewrite Hq.
  - apply IH. intros q Hpre Hq' Hneq. rewrite <-Hsplit in Hq'.
    destruct (Hbelow q Hpre Hneq) as (? & ? & Hnil).
    rewrite node_at_lookup, lookup_insert_ne, <-node_at_lookup by done.
    by apply Hall.
  - apply IH. intros q Hpre Hq' Hneq. rewrite <-Hsplit in Hq'.
    destruct (Hbelow q Hpre Hneq) as (? & ? & Hnil). by apply Hall.
Qed.

Lemma mkdir_go_makes (t : FS.tree) (done todo : path) (t' : FS.tree) :
  FS.node_at t done = Some FS.Dir →
  FS.mkdir_go t done todo = Ok t' →
  FS.node_at t' (done ++ todo) = Some FS.Dir.
Proof.
  revert t done. induction todo as [|c todo IH]; intros t done Hd; cbn [FS.mkdir_go].
  { intros [= <-]. by rewrite app_nil_r. }
  assert (done ++ c :: todo = (done // c) ++ todo) as ->
    by (unfold PurePath.joinpath; by rewrite <-app_assoc).
  destruct (FS.node_at t (done // c)) as [[| |d]|] eqn:E; [done| |done|].
  - by apply IH.
  - apply IH. by rewrite node_at_joinpath, lookup_insert_eq.
Qed.

Lemma move_in_file (t : FS.tree) (src dst : path) :
  FS.node_at t src = Some FS.File →
  FS.exists_in t dst = false →
  FS.is_dir_in t (PurePath.parent dst) = true →
  FS.move_in t src dst = Ok (<[dst := FS.File]> (delete src t)).
Proof.
  intros Hsrc Hfree Hpar. unfold FS.move_in.
  assert (FS.is_dir_in t dst = false) as ->.
  { unfold FS.is_dir_in, FS.exists_in in *. by repeat case_match. }
  cbn [andb]. by rewrite Hsrc, Hpar.
Qed.

Section Preserved.
Variable faults : FS.call → option exn.
Variables (source : path) (dry_run include_hidden : bool).
Implicit Types (t : FS.tree) (item d dest q : path) (st : state) (items : list path).

Lemma process_item_keeps_dirs st item q :
  FS.node_at (fs st) q = Some FS.Dir →
  FS.node_at (fs (process_item faults source dry_run include_hidden st item)) q
  = Some FS.Dir.
Proof.
  intros Hq.
  destruct (process_item_effect faults source include_hidden dry_run st item)
    as [t1 Hprep -> Hm|t1 dest Hprep Hm _ _ _ _ Hfree Hfs
       |t1 dest e _ Hprep _ _ _ Hfree _ _ ->];
    pose proof (prepared_node_at _ _ _ _ _ _ _ _ Hprep Hq) as Hq1; [done| |].
  - revert Hfs. destruct dry_run; [by intros ->|]. intros (Hitem & _ & ->).
    rewrite node_at_moved_other; [done| |]; intros ->; [congruence|].
    unfold FS.exists_in in Hfree. by rewrite Hq1 in Hfree.
  - destruct q as [|c q]; [done|]. cbn in *. rewrite lookup_insert_ne; [done|].
    intros ->. unfold FS.exists_in in Hfree. cbn in Hfree. by rewrite Hq1 in Hfree.
Qed.

Lemma process_item_keeps_entries st item q :
  q ≠ item →
  is_Some (FS.node_at (fs st) q) →
  is_Some (FS.node_at (fs (process_item faults source dry_run include_hidden st item)) q).
Proof.
  intros Hne [n Hq].
  destruct (process_item_effect faults source include_hidden dry_run st item)
    as [t1 Hprep -> Hm|t1 dest Hprep Hm _ _ _ _ Hfree Hfs
       |t1 dest e _ Hprep _ _ _ Hfree _ _ ->];
    pose proof (prepared_node_at _ _ _ _ _ _ _ _ Hprep Hq) as Hq1; [by eexists| |].
  - revert Hfs. destruct dry_run; [intros ->; by eexists|]. intros (Hitem & _ & ->).
    destruct (decide (q = dest)) as [->|?].
    + assert (dest ≠ []) by (intros ->; unfold FS.exists_in in Hfree; done).
      rewrite node_at_lookup, lookup_insert_eq by done. by eexists.
    + rewrite node_at_moved_other by done. by eexists.
  - destruct q as [|c q]; [by eexists|]. cbn in *.
    destruct (decide (c :: q = dest)) as [->|?].
    + rewrite lookup_insert_eq. by eexists.
    + rewrite lookup_insert_ne by done. by eexists.
Qed.

Lemma process_item_category_dirs st item c :
  FS.node_at (fs st) (source // c) = None ∨ FS.node_at (fs st) (source // c) = Some FS.Dir →
  let st' := process_item faults source dry_run include_hidden st item in
  FS.node_at (fs st') (source // c) = None ∨ FS.node_at (fs st') (source // c) = Some FS.Dir.
Proof.
  intros [Hq|Hq] st'; subst st'; [|right; by apply process_item_keeps_dirs].
  assert (∀ dest, variant_of (source // category_of item // PurePath.name item) dest →
                  source // c ≠ dest) as Hnd.
  { intros dest Hv <-.
    destruct Hv as [Hv|(k & _ & Hv)]; apply (f_equal PurePath.parent) in Hv;
      rewrite ?numbered_parent, !parent_joinpath in Hv;
      by apply (not_prefix_joinpath source (category_of item)); rewrite <-Hv. }
  destruct (process_item_effect faults source include_hidden dry_run st item)
    as [t1 Hprep -> Hm|t1 dest Hprep Hm _ Hv _ _ Hfree Hfs
       |t1 dest e _ Hprep _ _ Hv Hfree _ _ ->].
  { destruct (prepared_fresh _ _ _ _ _ _ _ Hprep Hq) as [?|[? _]]; auto. }
  - assert (FS.node_at t1 (source // c) = None ∨
            FS.node_at t1 (source // c) = Some FS.Dir) as Hq1.
    { destruct (prepared_fresh _ _ _ _ _ _ _ Hprep Hq) as [?|[? _]]; auto. }
    revert Hfs. destruct dry_run; [by intros ->|]. intros (Hitem & _ & ->).
    specialize (Hnd dest Hv).
    destruct (decide (source // c = item)) as [<-|?].
    + left. by rewrite node_at_joinpath, lookup_insert_ne, lookup_delete_eq.
    + by rewrite node_at_moved_other.
  - assert (FS.node_at t1 (source // c) = None ∨
            FS.node_at t1 (source // c) = Some FS.Dir) as Hq1.
    { destruct (prepared_fresh _ _ _ _ _ _ _ Hprep Hq) as [?|[? _]]; auto. }
    specialize (Hnd dest Hv).
    by rewrite node_at_joinpath, lookup_insert_ne, <-node_at_joinpath.
Qed.

End Preserved.

Section Healthy.
Variable faults : FS.call → option exn.
Variables (source : path) (include_hidden : bool).
Hypothesis no_fault : ∀ c, faults c = None.
Implicit Types (t : FS.tree) (item d dest q : path) (st : state) (items : list path).

Lemma conflict_free_no_fault target st :
  ∃ dest, conflict_free faults target st = (st, Ok dest).
Proof.
  unfold conflict_free, bind, inspect. rewrite path_exists_no_fault by done.
  destruct (FS.exists_in (fs st) target); [|by eexists].
  unfold resolve_conflict, inspect.
  destruct (resolve_conflict_fuel faults (fs st) target) as (k & _ & _ & _ & ->).
  unfold loop_outcome. rewrite path_exists_no_fault by done. by eexists.
Qed.

Lemma mkdir_category_Ok t c :
  (∀ q, q `prefix_of` source → FS.is_dir_in t q = true) →
  FS.node_at t (source // c) = None ∨ FS.node_at t (source // c) = Some FS.Dir →
  ∃ t', FS.mkdir faults t (source // c) = Ok t' ∧
        FS.node_at t' (source // c) = Some FS.Dir.
Proof.
  intros Hsrc Hc. unfold FS.mkdir, FS.guarded. rewrite no_fault.
  destruct (mkdir_go_Ok t [] (source // c)) as [t' Ht'].
  { intros q _ Hq _. cbn in Hq. destruct (decide (q = source // c)) as [->|Hne]; [done|].
    right. apply is_dir_in_node_at, Hsrc.
    destruct Hq as [k Hk]. unfold PurePath.joinpath in Hk.
    destruct (exists_last (l := k)) as (k' & x & ->).
    { intros ->. rewrite app_nil_r in Hk. by apply Hne. }
    rewrite app_assoc in Hk. apply app_inj_tail in Hk as [-> _].
    by apply prefix_app_r. }
  exists t'. split; [done|]. by apply (mkdir_go_makes t [] (source // c)).
Qed.

(** In a healthy environment an iteration records no error, and a visible
    regular file is in place or gets moved. *)
Lemma process_item_healthy dry_run st item :
  (∀ q, q `prefix_of` source → FS.is_dir_in (fs st) q = true) →
  FS.node_at (fs st) (source // category_of item) = None ∨
    FS.node_at (fs st) (source // category_of item) = Some FS.Dir →
  is_Some (FS.node_at (fs st) item) →
  let st' := process_item faults source dry_run include_hidden st item in
  errors st' = errors st ∧
  (FS.node_at (fs st) item = Some FS.File →
   negb include_hidden && Str.startswith "." (PurePath.name item) = false →
   in_place source item ∨ ∃ dest, moved st' = moved st ++ [(item, dest)]).
Proof.
  intros Hsrc Hcat [n Hn] st'. subst st'.
  rewrite process_item_settle, loop_body_finish.
  unfold bind, inspect, modify, ret, FS.is_dir, FS.is_symlink, FS.guarded.
  rewrite !no_fault.
  destruct (FS.is_dir_in (fs st) item) eqn:Ed.
  { split; [done|]. intros Hf. unfold FS.is_dir_in in Ed. by rewrite Hf in Ed. }
  destruct (FS.is_symlink_in (fs st) item) eqn:El.
  { split; [done|]. intros Hf. unfold FS.is_symlink_in in El. by rewrite Hf in El. }
  assert (n = FS.File) as ->.
  { unfold FS.is_dir_in, FS.is_symlink_in in *. rewrite Hn in *. by destruct n. }
  destruct (negb include_hidden && _) eqn:Hh.
  { split; [done|]. by intros _ ?. }
  change (fs (incr_total_files st)) with (fs st).
  rewrite path_exists_no_fault by done.
  set (target_dir := source // category_of item) in *.
  set (target_path := target_dir // PurePath.name item).
  assert (∀ st1,
    FS.node_at (fs st1) item = Some FS.File →
    FS.node_at (fs st1) target_dir = Some FS.Dir ∨ dry_run = true →
    errors st1 = errors st →
    let st' := settle item (finish faults dry_run item target_path st1) in
    errors st' = errors st ∧
    (in_place source item ∨ ∃ dest, moved st' = moved st1 ++ [(item, dest)])) as Hfin.
  { intros st1 Hitem Hdir He. unfold finish, bind. rewrite is_same_file_eq.
    unfold same_resolved. rewrite !no_fault.
    destruct (bool_decide_reflect (item = target_path)) as [Heq|Hne].
    { split; [done|]. by left. }
    destruct (conflict_free_no_fault target_path st1) as [dest Hcf]. rewrite Hcf.
    apply conflict_free_inv in Hcf as (_ & Hfree & Hv).
    destruct dry_run.
    { cbn. split; [done|]. right. by eexists. }
    destruct Hdir as [Hdir|?]; [|done].
    cbn [negb when]. unfold act, FS.move. rewrite !no_fault.
    rewrite move_in_file; [cbn; split; [done|]; right; by eexists|done|done|].
    apply is_dir_in_node_at.
    assert (PurePath.parent dest = target_dir) as ->; [|done].
    destruct Hv as [->|(k & _ & ->)]; rewrite ?numbered_parent; apply parent_joinpath. }
  destruct (FS.exists_in (fs st) target_dir) eqn:Ex.
  - cbn [negb when ret].
    destruct (Hfin (incr_total_files st)) as [He Hm]; [done| |done|by split].
    left. destruct Hcat as [Hc|Hc]; [|done].
    unfold FS.exists_in in Ex. change (fs (incr_total_files st)) with (fs st).
    by rewrite Hc in Ex.
  - cbn [negb when]. destruct dry_run.
    + cbn [negb when ret].
      destruct (Hfin (incr_total_files st)) as [He Hm]; [done|by right|done|by split].
    + cbn [negb when]. unfold mutate. change (fs (incr_total_files st)) with (fs st).
      destruct (mkdir_category_Ok (fs st) (category_of item) Hsrc Hcat)
        as (t1 & Hmk & Hdir).
      fold target_dir in Hmk, Hdir. rewrite Hmk.
      destruct (Hfin (set_fs t1 (incr_total_files st))) as [He Hm];
        [by eapply mkdir_node_at|by left|done|by split].
Qed.

Lemma run_healthy dry_run st items :
  (∀ q, q `prefix_of` source → FS.is_dir_in (fs st) q = true) →
  (∀ item, item ∈ items →
     FS.node_at (fs st) (source // category_of item) = None ∨
     FS.node_at (fs st) (source // category_of item) = Some FS.Dir) →
  NoDup items →
  (∀ item, item ∈ items → is_Some (FS.node_at (fs st) item)) →
  let st' := foldl (process_item faults source dry_run include_hidden) st items in
  errors st' = errors st ∧
  ∀ item, item ∈ items →
    FS.node_at (fs st) item = Some FS.File →
    negb include_hidden && Str.startswith "." (PurePath.name item) = false →
    in_place source item ∨ item ∈ (moved st').*1.
Proof.
  revert st. induction items as [|item items IH]; intros st Hsrc Hcat Hnd Hex;
    cbn [foldl].
  { split; [done|]. by intros ? ?%elem_of_nil. }
  apply NoDup_cons in Hnd as [Hnotin Hnd].
  pose proof (process_item_healthy dry_run st item Hsrc
                (Hcat item ltac:(by left)) (Hex item ltac:(by left))) as Hstep.
  cbv zeta in Hstep. destruct Hstep as [He Hmv].
  set (st1 := process_item faults source dry_run include_hidden st item) in *.
  destruct (IH st1) as [He' Hrest]; [| | done | |].
  - intros q Hq. apply is_dir_in_node_at, process_item_keeps_dirs.
    by apply is_dir_in_node_at, Hsrc.
  - intros i Hi. apply process_item_category_dirs, Hcat. by right.
  - intros i Hi. apply process_item_keeps_entries; [by intros ->|].
    apply Hex. by right.
  - split; [by rewrite He'|].
    intros i [->|Hi]%elem_of_cons Hf Hh.
    + destruct (Hmv Hf Hh) as [?|[dest Hm]]; [by left|right].
      destruct (run_moved faults source dry_run include_hidden st1 items) as [k ->].
      rewrite Hm, !fmap_app. cbn. apply elem_of_app. left. apply elem_of_app. right.
      by apply list_elem_of_singleton.
    + apply Hrest; [done| |done].
      pose proof (process_item_untouched faults source dry_run include_hidden
                    st item i) as Hkeep.
      cbv zeta in Hkeep. fold st1 in Hkeep. rewrite Hkeep; [done| |].
      * unfold FS.exists_in. by rewrite Hf.
      * right; left. by intros ->.
Qed.

End Healthy.

(** X13.  In a healthy environment a run succeeds on every entry.  Assume
    that no call fails, that [source] and the directories above it are
    directories, that nothing but a directory sits at the category paths of
    the entries, and that the entries are distinct and present.  Then the
    run returns a result without errors, and every regular file among the
    entries that the hidden-file filter lets through is in place already
    or is recorded as moved. *)
Theorem healthy_run_has_no_errors (faults : FS.call → option exn) (source : path)
    (dry_run include_hidden : bool) (items : list path) (t : FS.tree) :
  (∀ c, faults c = None) →
  (∀ q, q `prefix_of` source → FS.is_dir_in t q = true) →
  (∀ item, item ∈ items →
     FS.node_at t (source // category_of item) = None ∨
     FS.node_at t (source // category_of item) = Some FS.Dir) →
  NoDup items →
  (∀ item, item ∈ items → is_Some (FS.node_at t item)) →
  ∃ t' r,
    organize_directory faults source dry_run include_hidden items t = (t', Ok (Some r)) ∧
    r_errors r = [] ∧
    ∀ item, item ∈ items →
      FS.node_at t item = Some FS.File →
      include_hidden = true ∨ Str.startswith "." (PurePath.name item) = false →
      in_place source item ∨ item ∈ (r_moved r).*1.
Proof.
  intros Hnf Hsrc Hcat Hnd Hex.
  assert (FS.path_exists faults t source = Ok true) as Hsource.
  { rewrite path_exists_no_fault by done. f_equal.
    specialize (Hsrc source ltac:(done)). apply is_dir_in_node_at in Hsrc.
    unfold FS.exists_in. by rewrite Hsrc. }
  destruct (run_healthy faults source include_hidden Hnf dry_run (initial t) items)
    as [He Hmv]; [done..|].
  eexists _, _. split; [by apply organize_directory_total|].
  cbn [report r_errors r_moved]. split; [done|].
  intros item Hin Hf Hh. apply Hmv; [done..|].
  destruct Hh as [-> | ->]; [done|]. by rewrite andb_false_r.
Qed.

Lemma healthy_run_has_no_errors_witness :
  ∃ t' r,
    organize_directory FS.no_faults ["src"] false false twins_items twins_tree
    = (t', Ok (Some r)) ∧
    r_errors r = [] ∧
    ∀ item, item ∈ twins_items →
      FS.node_at twins_tree item = Some FS.File →
      false = true ∨ Str.startswith "." (PurePath.name item) = false →
      in_place ["src"] item ∨ item ∈ (r_moved r).*1.
Proof.
  apply (healthy_run_has_no_errors FS.no_faults ["src"] false false twins_items twins_tree).
  - intros c. reflexivity.
  - intros q [k Hk].
    destruct q as [|a [|b q]]; [reflexivity| |discriminate].
    injection Hk as <- _. reflexivity.
  - apply Forall_forall. compute_done.
  - compute_done.
  - apply Forall_forall. compute_done.
Defined.

(** ** Runs over a listing in two parts *)

Section Frame.
Variable faults : FS.call → option exn.
Variables (source : path) (dry_run include_hidden : bool).

Lemma framed_ret {A} (a : A) : framed (ret a).
Proof. done. Qed.

Lemma framed_bind {A B} (m : M A) (k : A → M B) :
  framed m → (∀ a, framed (k a)) → framed (bind m k).
Proof.
  intros Hm Hk st0 st. unfold bind. rewrite Hm.
  destruct (m st) as [st1 [a|e]]; cbn [fst snd]; [apply Hk|done].
Qed.

Lemma framed_inspect {A} (f : FS.tree → result A) : framed (inspect f).
Proof. done. Qed.

Lemma framed_mutate (f : FS.tree → result FS.tree) : framed (mutate f).
Proof.
  intros st0 st. unfold mutate. change (fs (extend st0 st)) with (fs st).
  by destruct (f (fs st)).
Qed.

Lemma framed_act (f : FS.tree → FS.tree * result unit) : framed (act f).
Proof. done. Qed.

Lemma framed_when (b : bool) (m : M unit) : framed m → framed (when b m).
Proof. by destruct b. Qed.

Lemma framed_append_skipped item : framed (modify (append_skipped item)).
Proof.
  intros st0 st. unfold modify, append_skipped, extend. cbn. by rewrite app_assoc.
Qed.

Lemma framed_append_moved m : framed (modify (append_moved m)).
Proof.
  intros st0 st. unfold modify, append_moved, extend. cbn. by rewrite app_assoc.
Qed.

Lemma framed_incr_total_files : framed (modify incr_total_files).
Proof.
  intros st0 st. unfold modify, incr_total_files, extend. cbn.
  by rewrite Nat.add_succ_r.
Qed.

Lemma framed_loop_body item :
  framed (loop_body faults source dry_run include_hidden item).
Proof.
  unfold loop_body, conflict_free, is_same_file, resolve_conflict.
  repeat first
    [ apply framed_bind; [|intros ?]
    | apply framed_inspect
    | apply framed_ret
    | apply framed_when
    | apply framed_mutate
    | apply framed_act
    | apply framed_append_skipped
    | apply framed_append_moved
    | apply framed_incr_total_files
    | match goal with |- framed (if ?b then _ else _) => destruct b end ].
Qed.

Lemma process_item_frame st0 st item :
  process_item faults source dry_run include_hidden (extend st0 st) item
  = extend st0 (process_item faults source dry_run include_hidden st item).
Proof.
  unfold process_item. rewrite framed_loop_body.
  destruct (loop_body faults source dry_run include_hidden item st) as [st1 [[]|e]];
    cbn [fst snd]; [done|].
  rewrite !except_clauses_eq. unfold append_errors, extend. cbn.
  by rewrite app_assoc.
Qed.

Lemma run_frame st0 st items :
  foldl (process_item faults source dry_run include_hidden) (extend st0 st) items
  = extend st0 (foldl (process_item faults source dry_run include_hidden) st items).
Proof.
  revert st. induction items as [|item items IH]; intros st; cbn [foldl]; [done|].
  by rewrite process_item_frame, IH.
Qed.

Lemma extend_initial st : extend st (initial (fs st)) = st.
Proof.
  destruct st. unfold extend, initial. cbn. by rewrite !app_nil_r, Nat.add_0_r.
Qed.

End Frame.

(** X14.  A run over a listing in two parts is the run over the first part
    followed by a run over the second part on the tree the first one
    leaves: the lists of the result are those of the two runs one after the
    other, and the count of files seen is the sum of theirs.  An iteration
    reads nothing of the records of the iterations before it. *)
Theorem run_over_two_parts (faults : FS.call → option exn) (source : path)
    (dry_run include_hidden : bool) (items1 items2 : list path) (t t' : FS.tree)
    (r : run_result) :
  source ∉ items1 →
  organize_directory faults source dry_run include_hidden (items1 ++ items2) t
  = (t', Ok (Some r)) →
  ∃ t1 r1 r2,
    organize_directory faults source dry_run include_hidden items1 t = (t1, Ok (Some r1)) ∧
    organize_directory faults source dry_run include_hidden items2 t1 = (t', Ok (Some r2)) ∧
    r_moved r = r_moved r1 ++ r_moved r2 ∧
    r_errors r = r_errors r1 ++ r_errors r2 ∧
    r_skipped r = r_skipped r1 ++ r_skipped r2 ∧
    total_files_seen (r_summary r)
    = (total_files_seen (r_summary r1) + total_files_seen (r_summary r2))%nat.
Proof.
  intros Hsrc Hrun.
  pose proof (organize_directory_Some_next _ _ _ _ _ _ _ _ Hrun) as Hnext.
  rewrite length_app in Hnext.
  apply organize_directory_Some in Hrun as (Hex & -> & ->).
  set (st1 := foldl (process_item faults source dry_run include_hidden) (initial t) items1).
  assert (foldl (process_item faults source dry_run include_hidden) (initial t)
            (items1 ++ items2)
          = extend st1 (foldl (process_item faults source dry_run include_hidden)
                          (initial (fs st1)) items2)) as ->.
  { rewrite foldl_app. fold st1. rewrite <-(extend_initial st1) at 1.
    by rewrite run_frame. }
  assert (FS.path_exists faults (fs st1) source = Ok true) as Hex'.
  { rewrite <-Hex. apply path_exists_ext. apply path_exists_Ok in Hex.
    pose proof (run_untouched faults source dry_run include_hidden (initial t) items1
                  source Hex) as Hkeep.
    cbv zeta in Hkeep. unfold FS.exists_in. fold st1 in Hkeep. rewrite Hkeep; [done|].
    intros Hin. apply Hsrc.
    destruct (run_sublists faults source dry_run include_hidden (initial t) items1 [])
      as (Hsub & _ & _); [apply sublist_nil_l..|].
    by eapply elem_of_sublist. }
  exists (fs st1), (report st1). eexists.
  rewrite !organize_directory_total; [|done|intros; apply Hnext; lia
                                      |done|intros; apply Hnext; lia].
  split_and!; done.
Qed.

Lemma run_over_two_parts_witness :
  ∃ t1 r1 r2,
    organize_directory FS.no_faults ["src"] false false desk_items desk_tree
    = (t1, Ok (Some r1)) ∧
    organize_directory FS.no_faults ["src"] false false desk_items_late t1
    = (desk_live.1, Ok (Some r2)) ∧
    r_moved desk_result_live = r_moved r1 ++ r_moved r2 ∧
    r_errors desk_result_live = r_errors r1 ++ r_errors r2 ∧
    r_skipped desk_result_live = r_skipped r1 ++ r_skipped r2 ∧
    total_files_seen (r_summary desk_result_live)
    = (total_files_seen (r_summary r1) + total_files_seen (r_summary r2))%nat.
Proof.
  apply (run_over_two_parts FS.no_faults ["src"] false false desk_items
           desk_items_late desk_tree desk_live.1 desk_result_live).
  - compute_done.
  - compute_done.
Defined.

(** ** What the counters count *)

Section Filters.
Local Open Scope nat_scope.
Variable faults : FS.call → option exn.
Variables (source : path) (include_hidden : bool).
Hypothesis tests_total : ∀ p, faults (FS.IsDir p) = None ∧ faults (FS.IsSymlink p) = None.

Lemma process_item_filters dry_run st item :
  let st' := process_item faults source dry_run include_hidden st item in
  skipped st' = skipped st ++ List.filter (is_skipped include_hidden (fs st)) [item] ∧
  total_files st'
  = total_files st + length (List.filter (is_counted include_hidden (fs st)) [item]).
Proof.
  intros st'. subst st'.
  destruct (loop_body faults source dry_run include_hidden item st) as [st1 r] eqn:E.
  pose proof (loop_body_cases _ _ _ _ _ _ _ _ E) as Hc.
  assert (process_item faults source dry_run include_hidden st item
          = match r with Ok _ => st1 | Raise e => append_errors (item, exn_str e) st1 end)
    as ->.
  { destruct r; [by eapply process_item_Ok|by apply process_item_raise]. }
  unfold FS.is_dir, FS.is_symlink, FS.guarded in Hc.
  destruct (tests_total item) as [Hd Hl]. rewrite Hd, Hl in Hc.
  cbn [List.filter]. unfold is_skipped, is_counted, passes_type_tests, hidden_skip.
  destruct (FS.is_dir_in (fs st) item).
  { destruct Hc as [-> ->]. cbn. by rewrite app_nil_r, Nat.add_0_r. }
  destruct (FS.is_symlink_in (fs st) item).
  { destruct Hc as [-> ->]. cbn. by rewrite app_nil_r, Nat.add_0_r. }
  destruct (negb include_hidden && _).
  { destruct Hc as [-> ->]. cbn. by rewrite Nat.add_0_r. }
  destruct Hc as (Ht & Hs & _). cbn.
  destruct r; cbn; rewrite Hs, Ht, app_nil_r; (split; [done|lia]).
Qed.

Lemma run_dry_filters st items :
  let st' := foldl (process_item faults source true include_hidden) st items in
  skipped st' = skipped st ++ List.filter (is_skipped include_hidden (fs st)) items ∧
  total_files st'
  = total_files st + length (List.filter (is_counted include_hidden (fs st)) items).
Proof.
  revert st. induction items as [|item items IH]; intros st; cbn [foldl].
  { cbn. by rewrite app_nil_r, Nat.add_0_r. }
  specialize (IH (process_item faults source true include_hidden st item)).
  cbv zeta in IH. rewrite process_item_dry_fs in IH. destruct IH as [-> ->].
  pose proof (process_item_filters true st item) as Hstep. cbv zeta in Hstep.
  destruct Hstep as [-> ->].
  change (item :: items) with ([item] ++ items).
  rewrite !List.filter_app, length_app, <-app_assoc. split; [done|lia].
Qed.

End Filters.

(** X15.  What a dry run counts and skips.  When the directory and link
    tests do not fail, [skipped] holds, in the order of the traversal,
    exactly the entries that are neither directory nor link and are hidden
    while hidden files are not included, and [total_files_seen] is the
    number of the other entries that are neither directory nor link. *)
Theorem dry_run_counts_what_passes_the_filters (faults : FS.call → option exn)
    (source : path) (include_hidden : bool) (items : list path) (t t' : FS.tree)
    (r : run_result) :
  (∀ p, faults (FS.IsDir p) = None ∧ faults (FS.IsSymlink p) = None) →
  organize_directory faults source true include_hidden items t = (t', Ok (Some r)) →
  r_skipped r = List.filter (is_skipped include_hidden t) items ∧
  total_files_seen (r_summary r)
  = length (List.filter (is_counted include_hidden t) items).
Proof.
  intros Hnf (_ & -> & ->)%organize_directory_Some. cbn [report r_skipped r_summary total_files_seen].
  by destruct (run_dry_filters faults source include_hidden Hnf (initial t) items)
    as [-> ->].
Qed.

Lemma dry_run_counts_what_passes_the_filters_witness :
  r_skipped desk_result = List.filter (is_skipped false desk_tree) desk_items ∧
  total_files_seen (r_summary desk_result)
  = length (List.filter (is_counted false desk_tree) desk_items).
Proof.
  apply (dry_run_counts_what_passes_the_filters FS.no_faults ["src"] false desk_items
           desk_tree desk_tree desk_result).
  - intros p. split; reflexivity.
  - compute_done.
Defined.

(** ** The category table *)

(** X16.  The category of an entry is always one of the ten names of
    [CATEGORIES] or ["Other"]; none of them is empty or starts with a dot,
    so a category directory is never hidden. *)
Theorem category_is_a_table_name_or_other :
  (∀ item, category_of item ∈ category_names) ∧
  (∀ c, c ∈ category_names → c ≠ "" ∧ Str.startswith "." c = false).
Proof.
  split.
  - intros item. unfold category_of, category_of_ext.
    destruct (CATEGORIES !! _) as [c|] eqn:E; cbn [default]; [|compute_done].
    apply elem_of_list_to_map_2 in E.
    repeat (apply elem_of_cons in E as [E|E]; [injection E as _ ->; compute_done|]).
    by apply elem_of_nil in E.
  - intros c Hc. unfold category_names in Hc.
    repeat (apply elem_of_cons in Hc as [->|Hc]; [by split|]).
    by apply elem_of_nil in Hc.
Qed.

(** ** No file is lost *)

Lemma elem_of_regular_files (t : FS.tree) (q : path) :
  q ∈ regular_files t ↔ t !! q = Some FS.File.
Proof.
  unfold regular_files. rewrite elem_of_dom. split.
  - intros [n [Hq Hn]%map_lookup_filter_Some]. cbn in Hn. by subst.
  - intros Hq. exists FS.File. by apply map_lookup_filter_Some.
Qed.

Section Conservation.
Local Open Scope nat_scope.
Variable faults : FS.call → option exn.
Variables (source : path) (dry_run include_hidden : bool).

Lemma prepared_regular_files st item t1 :
  prepared faults source dry_run st item t1 →
  regular_files t1 = regular_files (fs st).
Proof.
  intros [->|[_ Hmk]]; [done|]. apply set_eq. intros q.
  rewrite !elem_of_regular_files.
  destruct (mkdir_lookup faults _ _ _ q Hmk) as [->|(Hq & Hd & _)]; [done|].
  rewrite Hq, Hd. split; congruence.
Qed.

Lemma moved_regular_files (t1 : FS.tree) (item dest : path) :
  FS.node_at t1 item = Some FS.File →
  FS.exists_in t1 dest = false →
  size (regular_files (<[dest := FS.File]> (delete item t1))) = size (regular_files t1).
Proof.
  intros Hitem Hfree.
  assert (item ≠ []) as Hi by by intros ->.
  assert (dest ≠ []) as Hd by by intros ->.
  rewrite node_at_lookup in Hitem by done.
  assert (t1 !! dest ≠ Some FS.File) as Hdest.
  { intros Hf. unfold FS.exists_in in Hfree.
    by rewrite node_at_lookup, Hf in Hfree. }
  assert (regular_files (<[dest := FS.File]> (delete item t1))
          = {[dest]} ∪ regular_files t1 ∖ {[item]}) as ->.
  { apply set_eq. intros q.
    rewrite elem_of_union, elem_of_difference, !elem_of_singleton,
      !elem_of_regular_files.
    destruct (decide (q = dest)) as [->|Hqd].
    { rewrite lookup_insert_eq. split; [by left|done]. }
    rewrite lookup_insert_ne by done.
    destruct (decide (q = item)) as [->|Hqi].
    { rewrite lookup_delete_eq. split; [done|by intros [?|[_ ?]]]. }
    rewrite lookup_delete_ne by done. split; [by right|by intros [?|[? _]]]. }
  assert (dest ∉ regular_files t1 ∖ {[item]}) as Hnew.
  { rewrite elem_of_difference, elem_of_regular_files. by intros [? _]. }
  rewrite size_union by set_solver.
  rewrite size_singleton, size_difference, size_singleton.
  - assert (size (regular_files t1) ≠ 0)%nat; [|lia].
    apply size_non_empty_iff. intros Hempty.
    assert (item ∈ regular_files t1) as Hin by by apply elem_of_regular_files.
    rewrite Hempty in Hin. set_solver.
  - apply singleton_subseteq_l. by apply elem_of_regular_files.
Qed.

Lemma copied_regular_files (t1 : FS.tree) (dest : path) :
  FS.exists_in t1 dest = false →
  size (regular_files (<[dest := FS.File]> t1)) = S (size (regular_files t1)).
Proof.
  intros Hfree.
  assert (dest ≠ []) as Hd by by intros ->.
  assert (t1 !! dest ≠ Some FS.File) as Hdest.
  { intros Hf. unfold FS.exists_in in Hfree.
    by rewrite node_at_lookup, Hf in Hfree. }
  assert (regular_files (<[dest := FS.File]> t1) = {[dest]} ∪ regular_files t1) as ->.
  { apply set_eq. intros q.
    rewrite elem_of_union, !elem_of_singleton, !elem_of_regular_files.
    destruct (decide (q = dest)) as [->|Hqd].
    { rewrite lookup_insert_eq. split; [by left|done]. }
    rewrite lookup_insert_ne by done. split; [by right|by intros [?|?]]. }
  assert (dest ∉ regular_files t1) as Hnew by by rewrite elem_of_regular_files.
  rewrite size_union by set_solver. by rewrite size_singleton.
Qed.

(** An iteration keeps the number of regular files, but for the copy a
    failed move leaves, for which it records an error. *)
Lemma process_item_regular_files st item :
  let st' := process_item faults source dry_run include_hidden st item in
  size (regular_files (fs st)) ≤ size (regular_files (fs st')) ∧
  size (regular_files (fs st')) + length (errors st)
  ≤ size (regular_files (fs st)) + length (errors st').
Proof.
  intros st'. subst st'.
  pose proof (prefix_length _ _
                (process_item_errors faults source dry_run include_hidden st item))
    as Hlen.
  destruct (process_item_effect faults source include_hidden dry_run st item)
    as [t1 Hprep -> Hm|t1 dest Hprep Hm _ _ _ _ Hfree Hfs
       |t1 dest e _ Hprep _ He _ Hfree _ _ ->];
    pose proof (prepared_regular_files _ _ _ Hprep) as Hsame.
  - rewrite Hsame. lia.
  - revert Hfs. destruct dry_run; [intros ->; rewrite Hsame; lia|].
    intros (Hitem & _ & ->). rewrite moved_regular_files, Hsame by done. lia.
  - rewrite copied_regular_files, Hsame, He, length_app by done. cbn. lia.
Qed.

Lemma run_regular_files st items :
  let st' := foldl (process_item faults source dry_run include_hidden) st items in
  size (regular_files (fs st)) ≤ size (regular_files (fs st')) ∧
  size (regular_files (fs st')) + length (errors st)
  ≤ size (regular_files (fs st)) + length (errors st').
Proof.
  revert st. induction items as [|item items IH]; intros st; cbn [foldl]; [cbn; lia|].
  pose proof (process_item_regular_files st item) as Hstep.
  specialize (IH (process_item faults source dry_run include_hidden st item)).
  cbv zeta in Hstep, IH. lia.
Qed.

End Conservation.

(** X17.  A run loses no file.  In a tree without symbolic links, whatever
    the environment does, the tree holds at least as many regular files
    after the run as before it, and at most one more for each recorded
    error: the copy that a failed move can leave beside its source.  A run
    without errors leaves exactly as many regular files as it found. *)
Theorem no_file_is_lost (faults : FS.call → option exn) (source : path)
    (dry_run include_hidden : bool) (items : list path) (t t' : FS.tree)
    (r : run_result) :
  organize_directory faults source dry_run include_hidden items t = (t', Ok (Some r)) →
  map_Forall (λ _ n, n = FS.File ∨ n = FS.Dir) t →
  (size (regular_files t) ≤ size (regular_files t'))%nat ∧
  (size (regular_files t') ≤ size (regular_files t) + length (r_errors r))%nat ∧
  (r_errors r = [] → size (regular_files t') = size (regular_files t)).
Proof.
  intros (_ & -> & ->)%organize_directory_Some _. cbn [report r_errors].
  pose proof (run_regular_files faults source dry_run include_hidden (initial t) items)
    as Hrun.
  cbv zeta in Hrun. cbn [initial fs errors length] in Hrun.
  split_and!; [lia|lia|]. intros Hnone. rewrite Hnone in Hrun. cbn in Hrun. lia.
Qed.

Lemma no_file_is_lost_witness :
  (size (regular_files twins_tree) ≤ size (regular_files copy_left_tree))%nat ∧
  (size (regular_files copy_left_tree)
   ≤ size (regular_files twins_tree) + length (r_errors copy_left_result))%nat ∧
  (r_errors copy_left_result = [] →
   size (regular_files copy_left_tree) = size (regular_files twins_tree)).
Proof.
  apply (no_file_is_lost (deny_unlink ["src"; "a"; "x.txt"]) ["src"] false false
           twins_items twins_tree copy_left_tree copy_left_result).
  - compute_done.
  - compute_done.
Defined.
